(** * Tile-based level system: collision grid, AABB collision test, goal tracking

    A shallow embedding of [src/constants.js], [src/collision.js] and the
    [Level] class of [src/level.js].

    Conventions of the embedding

    - A JavaScript number is a value of [num]: a rational, or one of the
      three non-finite values NaN, +Infinity, -Infinity.  The arithmetic of
      [detectCollision] is that of IEEE-754 binary64: module [F64] rounds
      every sum, product and quotient to the nearest binary64 value, ties to
      even, with overflow to the infinities.  The sign of zero is not
      modelled; nothing in these sources can tell the two zeros apart.
      [checkGoal] is given twice: [Level.checkGoal] computes its two sums
      exactly, which is all that the statements about events, state and
      edge contact need, and [Level64.checkGoal] rounds them.
    - A [for] loop whose bounds may be infinite is run with fuel; [None]
      stands for "fuel exhausted".  Bounded loops (the constructor's) recurse
      on the iteration count.
    - A call either returns or throws: [outcome].
    - Objects that are shared between the level document and the [Level]
      instance (the tile matrix, the goal object) live in a [heap] and are
      held by reference. *)

From Stdlib Require Import ZArith QArith Qabs Qcanon Qcabs Qround Lia.
From stdpp Require Import base numbers option list strings gmap.

Local Open Scope Z_scope.

(** ** JavaScript numbers *)

Module JsNum.

Inductive num : Type :=
  | NaN
  | PInf
  | NInf
  | Fin (q : Qc).

#[global] Instance num_eq_dec : EqDecision num.
Proof. solve_decision. Defined.

(** An integer as a number. *)
Definition int (z : Z) : num := Fin (Qc_of_Z z).

(** [a === b] *)
Definition eqb (a b : num) : bool :=
  match a, b with
  | NaN, _ | _, NaN => false
  | _, _ => bool_decide (a = b)
  end.

(** [a < b] *)
Definition ltb (a b : num) : bool :=
  match a, b with
  | NaN, _ | _, NaN => false
  | Fin p, Fin q => bool_decide (p < q)%Qc
  | NInf, NInf => false
  | NInf, _ => true
  | Fin _, PInf => true
  | Fin _, NInf => false
  | PInf, _ => false
  end.

(** [a <= b] *)
Definition leb (a b : num) : bool :=
  match a, b with
  | NaN, _ | _, NaN => false
  | Fin p, Fin q => bool_decide (p ≤ q)%Qc
  | NInf, _ => true
  | _, PInf => true
  | Fin _, NInf => false
  | PInf, _ => false
  end.

(** [a > b] and [a >= b] *)
Definition gtb (a b : num) : bool := ltb b a.
Definition geb (a b : num) : bool := leb b a.

(** [a + b], the sum not rounded *)
Definition add (a b : num) : num :=
  match a, b with
  | NaN, _ | _, NaN => NaN
  | Fin p, Fin q => Fin (p + q)%Qc
  | PInf, NInf | NInf, PInf => NaN
  | PInf, _ | _, PInf => PInf
  | NInf, _ | _, NInf => NInf
  end.

(** The sign of a number, used by [mul] and by division on non-finite
    operands. *)
Definition sgn (a : num) : option Z :=
  match a with
  | NaN => None
  | PInf => Some 1
  | NInf => Some (-1)
  | Fin q => Some (if bool_decide (0 < q)%Qc then 1
                   else if bool_decide (q < 0)%Qc then -1 else 0)
  end.

Definition inf_of_sign (s1 s2 : option Z) : num :=
  match s1, s2 with
  | Some a, Some b =>
      if a * b =? 0 then NaN else if 0 <? a * b then PInf else NInf
  | _, _ => NaN
  end.

(** [a * b], the product not rounded *)
Definition mul (a b : num) : num :=
  match a, b with
  | Fin p, Fin q => Fin (p * q)%Qc
  | _, _ => inf_of_sign (sgn a) (sgn b)
  end.

(** [Math.floor(a)] *)
Definition floor (a : num) : num :=
  match a with
  | Fin q => int (Qfloor q)
  | _ => a
  end.

Definition is_finite (a : num) : bool :=
  match a with Fin _ => true | _ => false end.

(** The array index a number denotes when used as a property key of an
    array: a non-negative integer; any other number names no element. *)
Definition index (a : num) : option nat :=
  match a with
  | Fin q =>
      if bool_decide (Qc_of_Z (Qfloor q) = q) && (0 <=? Qfloor q)
      then Some (Z.to_nat (Qfloor q)) else None
  | _ => None
  end.

End JsNum.

Import JsNum.

(** ** Binary64 arithmetic *)

Module F64.

(** [2^k] for an integer [k] of either sign. *)
Definition pow2 (k : Z) : Qc :=
  if 0 <=? k then Qc_of_Z (2 ^ k) else (/ Qc_of_Z (2 ^ (- k)))%Qc.

(** The exponent [e] with [2^e <= |q| < 2^(e+1)], for a [q] other than 0. *)
Definition exponent (q : Qc) : Z :=
  let e0 := Z.log2 (Z.abs (Qnum q)) - Z.log2 (Zpos (Qden q)) in
  if bool_decide (pow2 e0 ≤ Qcabs q)%Qc then e0 else e0 - 1.

(** The integer nearest to [m]; of two equally near, the even one. *)
Definition nearest_even (m : Qc) : Z :=
  let f := Qfloor m in
  let r := (m - Qc_of_Z f)%Qc in
  if bool_decide (r < Q2Qc (1 # 2))%Qc then f
  else if bool_decide (Q2Qc (1 # 2) < r)%Qc then f + 1
  else if Z.even f then f else f + 1.

(** The binary64 value of the real number [q]: round to nearest, ties to
    even.  A binary64 value has 53 significant bits; the unit in the last
    place of the binade of [q] is [2^(e-52)], and never less than [2^-1074],
    the smallest subnormal.  A result of magnitude [2^1024] or more is an
    infinity. *)
Definition rnd (q : Qc) : num :=
  if bool_decide (q = 0%Qc) then Fin 0%Qc
  else
    let e := Z.max (exponent q) (-1022) in
    let ulp := pow2 (e - 52) in
    let r := (Qc_of_Z (nearest_even (q / ulp)) * ulp)%Qc in
    if bool_decide (pow2 1024 ≤ Qcabs r)%Qc
    then (if bool_decide (0 < q)%Qc then PInf else NInf)
    else Fin r.

(** [a + b] *)
Definition add (a b : num) : num :=
  match a, b with
  | Fin p, Fin q => rnd (p + q)
  | _, _ => JsNum.add a b
  end.

(** [a * b] *)
Definition mul (a b : num) : num :=
  match a, b with
  | Fin p, Fin q => rnd (p * q)
  | _, _ => JsNum.mul a b
  end.

(** [a / b] *)
Definition div (a b : num) : num :=
  match a, b with
  | NaN, _ | _, NaN => NaN
  | Fin p, Fin q =>
      if bool_decide (q = 0%Qc) then inf_of_sign (sgn a) (Some 1)
      else rnd (p / q)
  | Fin _, _ => Fin 0%Qc
  | _, Fin _ => inf_of_sign (sgn a) (if sgn b is Some 0 then Some 1 else sgn b)
  | _, _ => NaN
  end.

(** [a++] (the new value of [a]) *)
Definition succ (a : num) : num := add a (int 1).

End F64.

(** ** JavaScript values, results of calls *)

#[warnings="-register-all"]
Inductive jsval : Type :=
  | VUndefined
  | VNull
  | VBool (b : bool)
  | VNum (n : num)
  | VStr (s : string)
  | VObj (props : list (string * jsval)).

(** [!!v] *)
Definition truthy (v : jsval) : bool :=
  match v with
  | VUndefined | VNull => false
  | VBool b => b
  | VNum NaN => false
  | VNum (Fin q) => negb (bool_decide (q = 0%Qc))
  | VNum _ => true
  | VStr s => negb (bool_decide (s = ""%string))
  | VObj _ => true
  end.

Fixpoint assoc (k : string) (props : list (string * jsval)) : jsval :=
  match props with
  | [] => VUndefined
  | (k', v) :: rest => if bool_decide (k' = k) then v else assoc k rest
  end.

(** [v.k] for a [v] that is neither [null] nor [undefined]; a primitive has
    no own properties. *)
Definition get (v : jsval) (k : string) : jsval :=
  match v with
  | VObj props => assoc k props
  | _ => VUndefined
  end.

Inductive error : Type :=
  | InvalidPlayerRect          (* Error('Invalid playerRect supplied to detectCollision') *)
  | InvalidLevel               (* Error('Invalid level object supplied to detectCollision') *)
  | GoalOutOfBounds (x y : Z)  (* Error(`Goal position out of bounds: (${x}, ${y})`) *)
  | TypeError                  (* reading a property of undefined *)
  | Thrown (v : jsval).        (* anything else a callee throws *)

Inductive outcome (A : Type) : Type :=
  | Return (a : A)
  | Throw (e : error).
Arguments Return {A} a.
Arguments Throw {A} e.

(** ** constants.js *)

Definition TILE_SIZE : Z := 32.
Definition MAX_PARTICLE_TILES : Z := 2000.

(** ** collision.js *)

Module Collision.
Section DetectCollision.

(** [S] is the state the level object's [isSolid] can reach.  A call of
    [detectCollision] runs in a [world]: the player rectangle object and
    that state. *)
Context {S : Type}.

Record world : Type := World { w_rect : jsval; w_level : S }.

Definition method : Type := num → num → world → outcome jsval * world.

(** The value of [level.isSolid]. *)
Inductive jsprop : Type :=
  | PFunction (f : method)
  | PValue (v : jsval).

(** The [level] argument: a falsy value, or something whose [isSolid]
    property can be read. *)
Inductive level_ref : Type :=
  | LFalsy
  | LObject (isSolid : jsprop).

(** The inner loop, [for (let tx = startX; tx <= endX; tx++)], at row
    [ty].  [Return true] is the early [return true]; [Return false] means
    the loop ran to its end. *)
Fixpoint scan_row (fuel : nat) (isSolid : method) (ty : num)
    (tx endX : num) (w : world) : option (outcome bool * world) :=
  match fuel with
  | O => None
  | Datatypes.S fuel' =>
      if leb tx endX then
        match isSolid tx ty w with
        | (Throw e, w') => Some (Throw e, w')
        | (Return v, w') =>
            if truthy v then Some (Return true, w')
            else scan_row fuel' isSolid ty (F64.succ tx) endX w'
        end
      else Some (Return false, w)
  end.

(** The outer loop, [for (let ty = startY; ty <= endY; ty++)]. *)
Fixpoint scan_rows (fuel : nat) (isSolid : method) (startX endX : num)
    (ty endY : num) (w : world) : option (outcome bool * world) :=
  match fuel with
  | O => None
  | Datatypes.S fuel' =>
      if leb ty endY then
        match scan_row fuel' isSolid ty startX endX w with
        | None => None
        | Some (Return false, w') =>
            scan_rows fuel' isSolid startX endX (F64.succ ty) endY w'
        | Some r => Some r
        end
      else Some (Return false, w)
  end.

Definition detectCollision (fuel : nat) (level : level_ref) (w : world)
    : option (outcome bool * world) :=
  let playerRect := w_rect w in
  match truthy playerRect,
        get playerRect "x", get playerRect "y",
        get playerRect "width", get playerRect "height" with
  | true, VNum x, VNum y, VNum width, VNum height =>
      match level with
      | LObject (PFunction isSolid) =>
          let startX := floor (F64.div x (int TILE_SIZE)) in
          let startY := floor (F64.div y (int TILE_SIZE)) in
          let endX := floor (F64.div (F64.add x width) (int TILE_SIZE)) in
          let endY := floor (F64.div (F64.add y height) (int TILE_SIZE)) in
          scan_rows fuel isSolid startX endX startY endY w
      | _ => Some (Throw InvalidLevel, w)
      end
  | _, _, _, _, _ => Some (Throw InvalidPlayerRect, w)
  end.

End DetectCollision.
Arguments world : clear implicits.
Arguments method : clear implicits.
Arguments jsprop : clear implicits.
Arguments level_ref : clear implicits.
End Collision.

(** ** Arrays *)

(** A JavaScript array whose slots may be empty: [new Array(n)] has [n]
    empty slots, and reading an empty slot or reading past the end gives
    [undefined] ([None]).  [new_Array] is [new Array(n)] for an [n] that is
    an array length, an integer from 0 to [2^32 - 1]; for any other number
    [new Array(n)] throws a RangeError, which is not modelled: the
    statements about construction are about documents whose tile matrix
    has [height] rows of [width] cells, or they bound the two sizes. *)
Abbreviation array A := (list (option A)) (only parsing).

Definition new_Array {A} (n : Z) : array A := replicate (Z.to_nat n) None.

(** [arr[i] = v]; a write past the end extends the array. *)
Definition array_set {A} (i : nat) (v : A) (arr : array A) : array A :=
  if bool_decide (i < length arr)%nat then <[i := Some v]> arr
  else arr ++ replicate (i - length arr) None ++ [Some v].

(** [arr[n]] for a number [n]. *)
Definition array_get {A} (arr : array A) (n : num) : option A :=
  i ← index n; mjoin (arr !! i).

(** ** level.js *)

Module Level.

Definition loc : Type := positive.

Record Point : Type := { px : Z; py : Z }.

(** The objects a level document shares with whoever holds it: tile
    matrices (rows of tile IDs) and goal objects [{x, y}]. *)
Record heap : Type := Heap {
  h_tiles : gmap loc (list (list Z));
  h_goals : gmap loc Point;
}.

(** A parsed level document.  [d_tiles] and [d_goal] are references;
    a dangling reference stands for a missing property. *)
Record Document : Type := {
  d_width : Z;
  d_height : Z;
  d_tiles : loc;
  d_collision : list Z;
  d_goal : loc;
}.

(** The fields of a [Level] instance, with [emitted] the events passed to
    [this.emit] so far. *)
Record Level : Type := {
  width : Z;
  height : Z;
  tiles : loc;
  collisionTileIds : gset Z;
  goal : loc;
  collisionGrid : array (array bool);
  _goalReached : jsval;
  emitted : list string;
}.

Record state : Type := State { st_heap : heap; this : Level }.

(** A player rectangle [{x, y, width, height}]; [rwidth] and [rheight] are
    its [width] and [height]. *)
Record Rect : Type := { x : num; y : num; rwidth : num; rheight : num }.

(** [set.has(tileId)], where [tileId] is [undefined] when the tile matrix
    has no such cell. *)
Definition has (ids : gset Z) (tileId : option Z) : bool :=
  match tileId with
  | Some id => bool_decide (id ∈ ids)
  | None => false
  end.

(** [for (let x = 0; x < this.width; x++)] with [n] iterations left;
    [tiles_y] is [this.tiles[y]]. *)
Fixpoint fill_row (n : nat) (x : nat) (ids : gset Z)
    (tiles_y : option (list Z)) (row : array bool) : outcome (array bool) :=
  match n with
  | O => Return row
  | S n' =>
      match tiles_y with
      | None => Throw TypeError
      | Some r =>
          let tileId := r !! x in
          fill_row n' (S x) ids tiles_y (array_set x (has ids tileId) row)
      end
  end.

(** [for (let y = 0; y < this.height; y++)] with [n] iterations left.  The
    source stores the new row in the grid and then fills it in place; here
    the row is filled and then stored. *)
Fixpoint fill_grid (n : nat) (y : nat) (w : Z) (ids : gset Z)
    (tls : option (list (list Z))) (grid : array (array bool))
    : outcome (array (array bool)) :=
  match n with
  | O => Return grid
  | S n' =>
      match fill_row (Z.to_nat w) 0 ids (tls ≫= (.!! y)) (new_Array w) with
      | Throw e => Throw e
      | Return row => fill_grid n' (S y) w ids tls (array_set y row grid)
      end
  end.

(** [new Level(rawData)].  The bounds check comes before any allocation, so
    [new Array] only ever sees a positive size.  The call of [logger.error]
    on the failing branch writes to the console only and is left out. *)
Definition new_Level (rawData : Document) (h : heap) : outcome Level :=
  let width := d_width rawData in
  let height := d_height rawData in
  let tiles := d_tiles rawData in
  let collisionTileIds : gset Z := list_to_set (d_collision rawData) in
  let goal := d_goal rawData in
  match h_goals h !! goal with
  | None => Throw TypeError
  | Some g =>
      if (px g <? 0) || (py g <? 0) || (px g >=? width) || (py g >=? height)
      then Throw (GoalOutOfBounds (px g) (py g))
      else
        match fill_grid (Z.to_nat height) 0 width collisionTileIds
                (h_tiles h !! tiles) (new_Array height) with
        | Throw e => Throw e
        | Return grid =>
            Return {| width := width; height := height; tiles := tiles;
                      collisionTileIds := collisionTileIds; goal := goal;
                      collisionGrid := grid;
                      _goalReached := VUndefined; emitted := [] |}
        end
  end.

(** [isSolid(x, y)] *)
Definition isSolid (x y : num) (st : state) : outcome jsval * state :=
  let this := this st in
  if ltb x (int 0) || ltb y (int 0)
     || geb x (int (width this)) || geb y (int (height this))
  then (Return (VBool false), st)
  else
    match array_get (collisionGrid this) y with
    | None => (Throw TypeError, st)
    | Some row =>
        (Return (match array_get row x with
                 | Some b => VBool b
                 | None => VUndefined
                 end), st)
    end.

(** [getGoalPosition()] *)
Definition getGoalPosition (st : state) : outcome Point * state :=
  match h_goals (st_heap st) !! goal (this st) with
  | None => (Throw TypeError, st)
  | Some g => (Return {| px := px g; py := py g |}, st)
  end.

(** The goal tile's world-space rectangle, [goalRect] in [checkGoal].  Here
    and in [overlap_of] the products and sums are not rounded; [Level64]
    below has the same three definitions with binary64 arithmetic. *)
Definition goalRect_of (g : Point) : Rect :=
  let goalWorldX := mul (int (px g)) (int TILE_SIZE) in
  let goalWorldY := mul (int (py g)) (int TILE_SIZE) in
  {| x := goalWorldX; y := goalWorldY;
     rwidth := int TILE_SIZE; rheight := int TILE_SIZE |}.

(** The value of [overlap] in [checkGoal]. *)
Definition overlap_of (playerRect goalRect : Rect) : bool :=
  ltb (x playerRect) (add (x goalRect) (rwidth goalRect))
  && gtb (add (x playerRect) (rwidth playerRect)) (x goalRect)
  && ltb (y playerRect) (add (y goalRect) (rheight goalRect))
  && gtb (add (y playerRect) (rheight playerRect)) (y goalRect).

(** [checkGoal(playerRect)] *)
Definition checkGoal (playerRect : Rect) (st : state) : outcome bool * state :=
  let this := this st in
  match h_goals (st_heap st) !! goal this with
  | None => (Throw TypeError, st)
  | Some g =>
      let goalRect := goalRect_of g in
      let overlap := overlap_of playerRect goalRect in
      if overlap && negb (truthy (_goalReached this)) then
        (Return overlap,
         State (st_heap st)
           {| width := width this; height := height this;
              tiles := tiles this;
              collisionTileIds := collisionTileIds this;
              goal := goal this;
              collisionGrid := collisionGrid this;
              _goalReached := VBool true;
              emitted := emitted this ++ ["levelComplete"%string] |})
      else (Return overlap, st)
  end.

(** A [Level] instance passed as the [level] argument of
    [detectCollision]: its [isSolid] property is the method above. *)
Definition isSolid_method : Collision.method state :=
  λ x y w,
    let '(r, st') := isSolid x y (Collision.w_level w) in
    (r, Collision.World (Collision.w_rect w) st').

Definition as_level : Collision.level_ref state :=
  Collision.LObject (Collision.PFunction isSolid_method).

End Level.

(** ** level.js: [checkGoal] in binary64 *)

Module Level64.
Import Level.

(** The goal tile's world-space rectangle, [goalRect] in [checkGoal]. *)
Definition goalRect_of (g : Point) : Rect :=
  let goalWorldX := F64.mul (int (px g)) (int TILE_SIZE) in
  let goalWorldY := F64.mul (int (py g)) (int TILE_SIZE) in
  {| x := goalWorldX; y := goalWorldY;
     rwidth := int TILE_SIZE; rheight := int TILE_SIZE |}.

(** The value of [overlap] in [checkGoal]. *)
Definition overlap_of (playerRect goalRect : Rect) : bool :=
  ltb (x playerRect) (F64.add (x goalRect) (rwidth goalRect))
  && gtb (F64.add (x playerRect) (rwidth playerRect)) (x goalRect)
  && ltb (y playerRect) (F64.add (y goalRect) (rheight goalRect))
  && gtb (F64.add (y playerRect) (rheight playerRect)) (y goalRect).

(** [checkGoal(playerRect)] *)
Definition checkGoal (playerRect : Rect) (st : state) : outcome bool * state :=
  let this := this st in
  match h_goals (st_heap st) !! goal this with
  | None => (Throw TypeError, st)
  | Some g =>
      let goalRect := goalRect_of g in
      let overlap := overlap_of playerRect goalRect in
      if overlap && negb (truthy (_goalReached this)) then
        (Return overlap,
         State (st_heap st)
           {| width := width this; height := height this;
              tiles := tiles this;
              collisionTileIds := collisionTileIds this;
              goal := goal this;
              collisionGrid := collisionGrid this;
              _goalReached := VBool true;
              emitted := emitted this ++ ["levelComplete"%string] |})
      else (Return overlap, st)
  end.

End Level64.

Import Collision Level.

(** ** Test fixtures *)

(** The mock level of the collision tests: [(2,2)] and [(3,2)] are solid. *)
Definition mock_isSolid : method () :=
  λ x y w,
    (Return (VBool ((eqb x (int 2) && eqb y (int 2))
                    || (eqb x (int 3) && eqb y (int 2)))), w).

Definition mockLevel : level_ref () := LObject (PFunction mock_isSolid).

(** [{ x, y, width, height }] *)
Definition rect_object (r : Rect) : jsval :=
  VObj [("x"%string, VNum (x r)); ("y"%string, VNum (y r));
        ("width"%string, VNum (rwidth r)); ("height"%string, VNum (rheight r))].

Definition int_rect (a b c d : Z) : Rect :=
  {| x := int a; y := int b; rwidth := int c; rheight := int d |}.

(** [createValidLevel()] of the loader tests, with the tile matrix at
    address 1 and the goal object at address 2. *)
Definition valid_heap : heap :=
  Heap {[ 1%positive := [[0; 1; 0; 2]; [0; 0; 2; 2]; [1; 1; 0; 0]] ]}
       {[ 2%positive := {| px := 3; py := 2 |} ]}.

Definition valid_document : Document :=
  {| d_width := 4; d_height := 3; d_tiles := 1%positive;
     d_collision := [1; 2]; d_goal := 2%positive |}.

(** ** Vocabulary of the statements *)

(** [floor(q / TILE_SIZE)]: the index of the tile column (or row) that
    contains the world coordinate [q]. *)
Definition tile_index (q : Qc) : Z := Qfloor (q / Qc_of_Z TILE_SIZE)%Qc.

(** Some [t] with [lo <= t <= hi] satisfies [p]. *)
Definition any_in (p : Z → bool) (lo hi : Z) : bool :=
  existsb p (seqZ lo (hi + 1 - lo)).

(** The object [r] has the four fields of a player rectangle, all finite. *)
Definition finite_rect (r : jsval) (x y w h : Qc) : Prop :=
  get r "x" = VNum (Fin x) ∧ get r "y" = VNum (Fin y) ∧
  get r "width" = VNum (Fin w) ∧ get r "height" = VNum (Fin h).

(** In world [w], [isSolid] answers every integer tile query with a boolean
    and changes nothing. *)
Definition pure_at_tiles {S} (f : method S) (w : world S) : Prop :=
  ∀ tx ty : Z, ∃ b : bool, f (int tx) (int ty) w = (Return (VBool b), w).

Definition solid_at {S} (f : method S) (w : world S) (tx ty : Z) : bool :=
  match f (int tx) (int ty) w with
  | (Return v, _) => truthy v
  | _ => false
  end.

(** [isSolid] never changes the world it runs in. *)
Definition read_only {S} (f : method S) : Prop :=
  ∀ x y w, (f x y w).2 = w.

Definition level_read_only {S} (level : level_ref S) : Prop :=
  match level with
  | LObject (PFunction f) => read_only f
  | _ => True
  end.

(** [typeof v === 'number'] *)
Definition is_number (v : jsval) : bool :=
  match v with VNum _ => true | _ => false end.

Definition is_finite_number (v : jsval) : bool :=
  match v with VNum n => is_finite n | _ => false end.

(** The check [detectCollision] makes of its first argument. *)
Definition checked_playerRect (r : jsval) : bool :=
  truthy r && is_number (get r "x") && is_number (get r "y")
  && is_number (get r "width") && is_number (get r "height").

(** The precondition the specification gives for the first argument:
    four finite numeric fields. *)
Definition spec_playerRect (r : jsval) : bool :=
  truthy r && is_finite_number (get r "x") && is_finite_number (get r "y")
  && is_finite_number (get r "width") && is_finite_number (get r "height").

(** [level] is truthy and [typeof level.isSolid === 'function']. *)
Definition callable_isSolid {S} (level : level_ref S) : bool :=
  match level with
  | LObject (PFunction _) => true
  | _ => false
  end.

Definition invalid_argument (e : error) : bool :=
  match e with
  | InvalidPlayerRect | InvalidLevel => true
  | _ => false
  end.

(** Whatever [isSolid] throws, it is not one of [detectCollision]'s own
    two errors. *)
Definition throws_no_invalid_argument {S} (level : level_ref S) : Prop :=
  match level with
  | LObject (PFunction f) =>
      ∀ x y w e, (f x y w).1 = Throw e → invalid_argument e = false
  | _ => True
  end.

(** [detectCollision] fails with an invalid-argument error. *)
Definition fails_invalid_argument {S} (fuel : nat) (level : level_ref S)
    (w : world S) : Prop :=
  ∃ e w', invalid_argument e = true
          ∧ detectCollision fuel level w = Some (Throw e, w').

(** Modelled from the spec: the schema [src/schemas/levelSchema.json] is not
    among the sources.  Section 4.1 of the specification gives its rules:
    [width] and [height] are integers at least 1, [tiles] is an array of
    [height] rows of [width] integers each, [collision] is an array of
    integers, and [goal] is an object with integer [x] and [y] (whose bounds
    the schema does not check).  The field types are those of [Document];
    what is left is the presence of [tiles] and [goal] and the sizes. *)
Definition schema_valid (h : heap) (d : Document) : Prop :=
  1 ≤ d_width d ∧ 1 ≤ d_height d
  ∧ (∃ m, h_tiles h !! d_tiles d = Some m
          ∧ length m = Z.to_nat (d_height d)
          ∧ Forall (λ row, length row = Z.to_nat (d_width d)) m)
  ∧ is_Some (h_goals h !! d_goal d).

Definition goal_out_of_bounds (d : Document) (g : Point) : Prop :=
  px g < 0 ∨ py g < 0 ∨ d_width d ≤ px g ∨ d_height d ≤ py g.

(** [this.tiles[y][x]] as the constructor reads it from the document. *)
Definition tile_at (h : heap) (d : Document) (x y : Z) : option Z :=
  m ← h_tiles h !! d_tiles d; row ← m !! Z.to_nat y; row !! Z.to_nat x.

(** The number [a] lies in [[0, n)]. *)
Definition within (a : num) (n : Z) : Prop :=
  ∃ q, a = Fin q ∧ (0 ≤ q)%Qc ∧ (q < Qc_of_Z n)%Qc.

(** The state after the first [n] calls [checkGoal(rects 0)], ...,
    [checkGoal(rects (n-1))]. *)
Fixpoint after_calls (rects : nat → Rect) (n : nat) (st : state) : state :=
  match n with
  | O => st
  | S k => (checkGoal (rects k) (after_calls rects k st)).2
  end.

(** What call number [n] returns, and the events it emits. *)
Definition call_result (rects : nat → Rect) (n : nat) (st : state)
    : outcome bool :=
  (checkGoal (rects n) (after_calls rects n st)).1.

Definition call_emits (rects : nat → Rect) (n : nat) (st : state)
    : list string :=
  drop (length (emitted (this (after_calls rects n st))))
       (emitted (this (after_calls rects (S n) st))).

(** Call [n] is the first whose overlap test is true. *)
Definition first_overlap (g : Point) (rects : nat → Rect) (n : nat) : Prop :=
  overlap_of (rects n) (goalRect_of g) = true
  ∧ ∀ j, (j < n)%nat → overlap_of (rects j) (goalRect_of g) = false.

Definition fin_rect (x y w h : Qc) : Rect :=
  {| Level.x := Fin x; Level.y := Fin y;
     rwidth := Fin w; rheight := Fin h |}.

(** The goal tile index lies in the inclusive floored tile range of the
    rectangle (the range [detectCollision] enumerates). *)
Definition goal_in_tile_range (g : Point) (x y w h : Qc) : Prop :=
  tile_index x ≤ px g ≤ tile_index (x + w)
  ∧ tile_index y ≤ py g ≤ tile_index (y + h).

(** The goal tile index lies between the tile columns of [x] and of the
    right edge [r], and between the tile rows of [y] and of the bottom edge
    [b]. *)
Definition goal_between (g : Point) (x r y b : Qc) : Prop :=
  tile_index x ≤ px g ≤ tile_index r ∧ tile_index y ≤ py g ≤ tile_index b.

(** The edges of the goal tile's world-space rectangle, [goal.x * 32],
    [goal.x * 32 + 32] and the same for [y], are integers below [2^53]:
    computing them rounds nothing. *)
Definition goal_edges_exact (g : Point) : Prop :=
  Z.abs (px g * TILE_SIZE) + TILE_SIZE < 2 ^ 53
  ∧ Z.abs (py g * TILE_SIZE) + TILE_SIZE < 2 ^ 53.

(** The claim that [isSolid] returns [false] at a pair of numbers outside
    [[0, width) x [0, height)]. *)
Definition outside_returns_false (st : state) (x y : num) : Prop :=
  ¬ (within x (width (this st)) ∧ within y (height (this st))) →
  isSolid x y st = (Return (VBool false), st).

(** The rectangle is in contact with one of the four edges of the goal
    tile's world-space rectangle. *)
Definition on_goal_edge (g : Point) (x y w h : Qc) : Prop :=
  (x + w)%Qc = Qc_of_Z (px g * TILE_SIZE)
  ∨ (y + h)%Qc = Qc_of_Z (py g * TILE_SIZE)
  ∨ x = Qc_of_Z ((px g + 1) * TILE_SIZE)
  ∨ y = Qc_of_Z ((py g + 1) * TILE_SIZE).

(** [this.tiles], read through the instance. *)
Definition stored_tiles (st : state) : option (list (list Z)) :=
  h_tiles (st_heap st) !! tiles (this st).

(** [doc.tiles[y][x] = id], a write to the source document after the level
    was built from it (for a cell the matrix has). *)
Definition write_tile (d : Document) (y x : nat) (id : Z) (h : heap) : heap :=
  Heap (alter (λ m, alter (λ row, <[x := id]> row) y m) (d_tiles d) (h_tiles h))
       (h_goals h).

(** Two states of a level agree on everything its interface shows. *)
Definition same_observations (st st' : state) : Prop :=
  (∀ x y, (isSolid x y st).1 = (isSolid x y st').1)
  ∧ (getGoalPosition st).1 = (getGoalPosition st').1
  ∧ stored_tiles st = stored_tiles st'
  ∧ collisionGrid (this st) = collisionGrid (this st').

(** The claim that [detectCollision] fails with an invalid-argument error
    exactly when the specification's precondition is violated. *)
Definition fails_iff_spec_precondition {S} (fuel : nat) (level : level_ref S)
    (w : world S) : Prop :=
  fails_invalid_argument fuel level w
  ↔ spec_playerRect (w_rect w) && callable_isSolid level = false.

(** A player rectangle whose [x] is NaN. *)
Definition nan_rect : jsval :=
  rect_object {| x := NaN; y := int 0; rwidth := int 32; rheight := int 32 |}.

(** A player rectangle whose [x] is +Infinity. *)
Definition inf_rect : jsval :=
  rect_object {| x := PInf; y := int 0; rwidth := int 32; rheight := int 32 |}.

(** The instance [new Level(valid_document)] builds. *)
Definition valid_level : Level :=
  {| width := 4; height := 3; tiles := 1%positive;
     collisionTileIds := list_to_set [1; 2]; goal := 2%positive;
     collisionGrid :=
       [Some [Some false; Some true; Some false; Some true];
        Some [Some false; Some false; Some true; Some true];
        Some [Some true; Some true; Some false; Some false]];
     _goalReached := VUndefined; emitted := [] |}.

(** The row the constructor derives from the tile row [r]: one boolean per
    column. *)
Definition expected_row (w : Z) (ids : gset Z) (r : list Z) : array bool :=
  (λ i, Some (has ids (r !! i))) <$> seq 0 (Z.to_nat w).

(** Some call before call [n] had a true overlap test. *)
Definition reached_before (g : Point) (rects : nat → Rect) (n : nat) : bool :=
  existsb (λ j, overlap_of (rects j) (goalRect_of g)) (seq 0 n).

(** The claim that [checkGoal] returns [true] exactly when the goal tile
    index lies in the inclusive floored tile range of the rectangle. *)
Definition checkGoal_agrees_with_tile_range (st : state) (g : Point)
    (x y w h : Qc) : Prop :=
  (Level64.checkGoal (fin_rect x y w h) st).1 = Return true
  ↔ goal_in_tile_range g x y w h.

(** The instance [L] once the goal has ([reached = true]) or has not yet
    been reached. *)
Definition level_after (L : Level) (reached : bool) : Level :=
  {| width := width L; height := height L; tiles := tiles L;
     collisionTileIds := collisionTileIds L; goal := goal L;
     collisionGrid := collisionGrid L;
     _goalReached := if reached then VBool true else VUndefined;
     emitted := if reached then ["levelComplete"%string] else [] |}.

(** ** Vocabulary of the further properties *)

(** The document says tile [(tx, ty)] is solid: the coordinates are within
    the grid, the tile matrix has the cell, and its tile ID is listed in
    [collision]. *)
Definition doc_solid (h : heap) (d : Document) (tx ty : Z) : bool :=
  bool_decide (0 ≤ tx < d_width d ∧ 0 ≤ ty < d_height d)
  && match tile_at h d tx ty with
     | Some id => bool_decide (id ∈ d_collision d)
     | None => false
     end.

(** The object [r] has four fields of type number. *)
Definition number_rect (r : jsval) (x y w h : num) : Prop :=
  get r "x" = VNum x ∧ get r "y" = VNum y ∧
  get r "width" = VNum w ∧ get r "height" = VNum h.

(** The number is an integer. *)
Definition integral (a : num) : Prop := ∃ z : Z, a = int z.

(** The four loop bounds [detectCollision] computes for the rectangle [r],
    [startX], [endX], [startY] and [endY], are the integers [sx], [ex],
    [sy] and [ey].  They are computed in binary64: [x + width] and
    [y + height] are rounded sums, and so are the four quotients. *)
Definition scanned_range (r : jsval) (sx ex sy ey : Z) : Prop :=
  ∃ x y wd ht,
    number_rect r x y wd ht
    ∧ floor (F64.div x (int TILE_SIZE)) = int sx
    ∧ floor (F64.div (F64.add x wd) (int TILE_SIZE)) = int ex
    ∧ floor (F64.div y (int TILE_SIZE)) = int sy
    ∧ floor (F64.div (F64.add y ht) (int TILE_SIZE)) = int ey.

(** A loop counter can step from [lo] up to [hi + 1] exactly: below [2^53]
    in magnitude every integer is a binary64 value, so [t++] is [t + 1]. *)
Definition steps_exactly (lo hi : Z) : Prop := - 2 ^ 53 < lo ∧ hi + 1 < 2 ^ 53.

(** The claim that [detectCollision] returns [true] exactly when a tile of
    the inclusive floored range of the rectangle is solid. *)
Definition returns_true_iff_solid_tile_in_range {S} (f : method S)
    (w : world S) (x y wd ht : Qc) : Prop :=
  ∃ N : nat, ∀ fuel, (N ≤ fuel)%nat →
    ∃ b : bool,
      detectCollision fuel (LObject (PFunction f)) w = Some (Return b, w)
      ∧ (b = true ↔
         ∃ tx ty : Z,
           tile_index x ≤ tx ≤ tile_index (x + wd)
           ∧ tile_index y ≤ ty ≤ tile_index (y + ht)
           ∧ f (int tx) (int ty) w = (Return (VBool true), w)).

(** A player rectangle far to the right, [{x: 2^58, y: 0, width: 128,
    height: 0}], and a level whose only solid tile is [(2^53 + 2, 0)]. *)
Definition far_rect : jsval := rect_object (int_rect (2 ^ 58) 0 128 0).

Definition far_isSolid : method () :=
  λ tx ty w, (Return (VBool (eqb tx (int (2 ^ 53 + 2)) && eqb ty (int 0))), w).

(** A player rectangle [{x: 64 - 2^-47, y: 64, width: 3 * 2^-49,
    height: 0}]: [x] is the largest binary64 value below 64, and
    [x + width], which is less than 64, rounds to 64. *)
Definition rounded_rect_x : Qc := (Qc_of_Z 64 - F64.pow2 (-47))%Qc.
Definition rounded_rect_width : Qc := (Qc_of_Z 3 * F64.pow2 (-49))%Qc.

Definition rounded_rect : jsval :=
  rect_object {| x := Fin rounded_rect_x; y := int 64;
                 rwidth := Fin rounded_rect_width; rheight := int 0 |}.

(** A width of [0.5 + 2^-53], the binary64 value next above one half: added
    to [95.5] it gives a sum that is greater than 96 and rounds to 96. *)
Definition just_over_half : Qc := (Q2Qc (1 # 2) + F64.pow2 (-53))%Qc.

(** [Number.isSafeInteger(z)]: an integer below [2^53] in magnitude. *)
Definition safe_integer (z : Z) : Prop := Z.abs z < 2 ^ 53.

(** [n] can be the length of an array. *)
Definition array_length (n : Z) : Prop := 0 ≤ n < 2 ^ 32.

(** The tile matrix of the document has at least [height] rows. *)
Definition rows_present (h : heap) (d : Document) : Prop :=
  ∃ m, h_tiles h !! d_tiles d = Some m
       ∧ (Z.to_nat (d_height d) ≤ length m)%nat.

(** The point [(p, q)] lies strictly inside the rectangle with the edges
    [left], [right], [top] and [bottom]. *)
Definition strictly_inside (p q left right top bottom : Qc) : Prop :=
  (left < p)%Qc ∧ (p < right)%Qc ∧ (top < q)%Qc ∧ (q < bottom)%Qc.

(** The goal tile's world-space rectangle, as rationals. *)
Definition goal_left (g : Point) : Qc := Qc_of_Z (px g * TILE_SIZE).
Definition goal_top (g : Point) : Qc := Qc_of_Z (py g * TILE_SIZE).
Definition tile_side : Qc := Qc_of_Z TILE_SIZE.

(** One of the four numbers of the rectangle is NaN. *)
Definition has_nan (r : Rect) : Prop :=
  x r = NaN ∨ y r = NaN ∨ rwidth r = NaN ∨ rheight r = NaN.

(** [new Error(message)] as a thrown value. *)
Definition Error_ (message : string) : error :=
  Thrown (VObj [("message"%string, VStr message)]).

(** ** assetManifest.js *)

Module AssetManifest.

(** An entry of the manifest: logical name, relative path, type, version
    and optional hash. *)
Record Asset : Type := {
  name : string;
  path : string;
  type : string;
  asset_version : string;
  hash : option string;
}.

(** A manifest object: [assets] and [version], either of which may be
    missing. *)
Record Manifest : Type := {
  assets : option (list Asset);
  version : option string;
}.

(** What [JSON.parse] gives: [null], another falsy value ([false], [0],
    [""]), or a value read as a manifest (a truthy value without the
    properties is a manifest with both missing). *)
Inductive parsed : Type :=
  | PNull
  | PFalsy
  | PManifest (m : Manifest).

(** The module variable [_manifestCache] ([null] at first), and what [fs.readFileSync(MANIFEST_PATH, 'utf-8')] would do now. *)
Record env : Type := Env {
  disk : outcome string;
  _manifestCache : parsed;
}.

Section Functions.

(** [MANIFEST_PATH], and [JSON.parse]: the parsed value, or the message of
    the error it throws. *)
Variable MANIFEST_PATH : string.
Variable JSON_parse : string → parsed + string.

(** [loadManifest()] *)
Definition loadManifest (w : env) : outcome parsed * env :=
  match _manifestCache w with
  | PManifest m => (Return (PManifest m), w)
  | _ =>
      match disk w with
      | Throw e => (Throw e, w)
      | Return raw =>
          match JSON_parse raw with
          | inr message =>
              (Throw (Error_ ("Failed to parse asset manifest at "
                              +:+ MANIFEST_PATH +:+ ": " +:+ message)), w)
          | inl v => (Return v, Env (disk w) v)
          end
      end
  end.

(** [manifest.assets] of what [loadManifest] returned: reading a property
    of [null] throws, a falsy primitive has no such property. *)
Definition assets_of (v : parsed) : outcome (option (list Asset)) :=
  match v with
  | PNull => Throw TypeError
  | PFalsy => Return None
  | PManifest m => Return (assets m)
  end.

(** [getAsset(name)]; [None] is [null]. *)
Definition getAsset (n : string) (w : env) : outcome (option Asset) * env :=
  match loadManifest w with
  | (Throw e, w') => (Throw e, w')
  | (Return manifest, w') =>
      match assets_of manifest with
      | Throw e => (Throw e, w')
      | Return None => (Throw TypeError, w')
      | Return (Some l) =>
          let entry := List.find (λ a, bool_decide (name a = n)) l in
          (Return entry, w')
      end
  end.

(** [listAssetsByType(type)] *)
Definition listAssetsByType (t : string) (w : env)
    : outcome (list Asset) * env :=
  match loadManifest w with
  | (Throw e, w') => (Throw e, w')
  | (Return manifest, w') =>
      match assets_of manifest with
      | Throw e => (Throw e, w')
      | Return None => (Throw TypeError, w')
      | Return (Some l) => (Return (filter (λ a, type a = t) l), w')
      end
  end.

(** [getVersion()]; [None] is [undefined]. *)
Definition getVersion (w : env) : outcome (option string) * env :=
  match loadManifest w with
  | (Throw e, w') => (Throw e, w')
  | (Return PNull, w') => (Throw TypeError, w')
  | (Return PFalsy, w') => (Return None, w')
  | (Return (PManifest m), w') => (Return (version m), w')
  end.

End Functions.
End AssetManifest.

(** ** assetLoader.js *)

Module AssetLoader.

(** [new PIXI.Texture(PIXI.BaseTexture.from(path))]: a texture is known by
    the path its base texture was made from. *)
Record Texture : Type := { base_from : string }.

(** [loadTileset(path)], on the module variable [tilesetTexture] ([None] is
    its initial [null]).  [BaseTexture_from path] says whether the library
    call [PIXI.BaseTexture.from(path)] throws, and what: it does for a
    source it cannot resolve, such as the empty string.  The variable is
    assigned only after the call has returned. *)
Definition loadTileset (BaseTexture_from : string → option error)
    (path : string) (tilesetTexture : option Texture)
    : outcome () * option Texture :=
  match BaseTexture_from path with
  | Some e => (Throw e, tilesetTexture)
  | None =>
      let baseTexture := path in
      (Return (), Some {| base_from := baseTexture |})
  end.

(** [getTilesetTexture()] *)
Definition getTilesetTexture (tilesetTexture : option Texture)
    : outcome Texture :=
  match tilesetTexture with
  | None => Throw (Error_ "Tileset texture not loaded. Call loadTileset() first.")
  | Some t => Return t
  end.

End AssetLoader.

(** ** level.js: rendering and cleanup *)

Module LevelView.
Import AssetLoader.

(** A [PIXI.Sprite] with the properties [render] sets. *)
Record Sprite : Type := {
  s_texture : Texture;
  s_x : Z;
  s_y : Z;
  s_width : Z;
  s_height : Z;
}.

(** The container [render] creates: a [PIXI.ParticleContainer] of a given
    maximum size (its options are the same five [true] flags every time) or
    a plain [PIXI.Container]; [addChild] appends to its children. *)
Inductive Container : Type :=
  | ParticleContainer (maxSize : Z) (children : list Sprite)
  | PlainContainer (children : list Sprite).

Definition children_of (c : Container) : list Sprite :=
  match c with
  | ParticleContainer _ cs | PlainContainer cs => cs
  end.

(** Calls that leave the module, in the order they are made. *)
Inductive effect : Type :=
  | Warn (totalTiles : Z)
      (* logger.warn(`Tile count (${totalTiles}) exceeds MAX_PARTICLE_TILES
         (${MAX_PARTICLE_TILES}); using regular Container.`) *)
  | Destroy (c : Container)
      (* c.destroy({ children: true, texture: false, baseTexture: false }) *)
  | RemoveAllListeners.
      (* this.removeAllListeners() *)

(** A [Level] instance with its [_renderContainer] field ([None] is the
    [null] the constructor stores), the asset loader's [tilesetTexture],
    and the effects so far. *)
Record view : Type := View {
  level : state;
  tilesetTexture : option Texture;
  _renderContainer : option Container;
  effects : list effect;
}.

Definition new_sprite (texture : Texture) (x y : nat) : Sprite :=
  {| s_texture := texture;
     s_x := Z.of_nat x * TILE_SIZE;
     s_y := Z.of_nat y * TILE_SIZE;
     s_width := TILE_SIZE;
     s_height := TILE_SIZE |}.

(** [for (let x = 0; x < this.width; x++)] of [render], with [n] iterations
    left; [tiles_y] is [this.tiles[y]] and [children] the children of the
    render container so far. *)
Fixpoint render_row (n : nat) (x y : nat) (tiles_y : option (list Z))
    (texture : Texture) (children : list Sprite) : outcome (list Sprite) :=
  match n with
  | O => Return children
  | S n' =>
      match tiles_y with
      | None => Throw TypeError
      | Some r =>
          let tileId := r !! x in
          let sprite := new_sprite texture x y in
          render_row n' (S x) y tiles_y texture (children ++ [sprite])
      end
  end.

(** [for (let y = 0; y < this.height; y++)] of [render]. *)
Fixpoint render_rows (n : nat) (y : nat) (w : Z)
    (tls : option (list (list Z))) (texture : Texture)
    (children : list Sprite) : outcome (list Sprite) :=
  match n with
  | O => Return children
  | S n' =>
      match render_row (Z.to_nat w) 0 y (tls ≫= (.!! y)) texture children with
      | Throw e => Throw e
      | Return children' => render_rows n' (S y) w tls texture children'
      end
  end.

(** [render(container)].  [container] is the optional parent, given by its
    children; the third component of the result is the parent afterwards. *)
Definition render (container : option (list Container)) (v : view)
    : outcome Container * view * option (list Container) :=
  let this := this (level v) in
  let totalTiles := width this * height this in
  let useParticle := totalTiles <=? MAX_PARTICLE_TILES in
  match getTilesetTexture (tilesetTexture v) with
  | Throw e => (Throw e, v, container)
  | Return texture =>
      let effects' :=
        if useParticle then effects v else effects v ++ [Warn totalTiles] in
      match render_rows (Z.to_nat (height this)) 0 (width this)
              (h_tiles (st_heap (level v)) !! tiles this) texture [] with
      | Throw e =>
          (Throw e,
           View (level v) (tilesetTexture v) (_renderContainer v) effects',
           container)
      | Return children =>
          let renderContainer :=
            if useParticle then ParticleContainer totalTiles children
            else PlainContainer children in
          (Return renderContainer,
           View (level v) (tilesetTexture v) (Some renderContainer) effects',
           (λ cs, cs ++ [renderContainer]) <$> container)
      end
  end.

(** [destroy()] *)
Definition destroy (v : view) : view :=
  let effects' :=
    match _renderContainer v with
    | Some c => effects v ++ [Destroy c]
    | None => effects v
    end in
  View (level v) (tilesetTexture v) None (effects' ++ [RemoveAllListeners]).

End LevelView.

(** A stand-in for [PIXI.BaseTexture.from], for examples: it throws for
    the empty path only. *)
Definition sample_BaseTexture_from (path : string) : option error :=
  if bool_decide (path = ""%string) then Some (Thrown VUndefined) else None.

Definition is_Destroy (e : LevelView.effect) : bool :=
  match e with LevelView.Destroy _ => true | _ => false end.

(** The sprite [render] makes for tile [(x, y)]. *)
Definition tile_sprite (t : AssetLoader.Texture) (x y : Z) : LevelView.Sprite :=
  {| LevelView.s_texture := t;
     LevelView.s_x := x * TILE_SIZE; LevelView.s_y := y * TILE_SIZE;
     LevelView.s_width := TILE_SIZE; LevelView.s_height := TILE_SIZE |}.

(** A level of a single tile, for examples: the document, and the instance
    and render container built from it. *)
Definition tiny_heap : heap :=
  Heap {[ 1%positive := [[0]] ]} {[ 2%positive := {| px := 0; py := 0 |} ]}.

Definition tiny_document : Document :=
  {| d_width := 1; d_height := 1; d_tiles := 1%positive;
     d_collision := []; d_goal := 2%positive |}.

Definition tiny_level : Level :=
  {| width := 1; height := 1; tiles := 1%positive;
     collisionTileIds := list_to_set []; goal := 2%positive;
     collisionGrid := [Some [Some false]];
     _goalReached := VUndefined; emitted := [] |}.

Definition tiny_container : LevelView.Container :=
  LevelView.ParticleContainer 1
    [tile_sprite {| AssetLoader.base_from := "tileset.png" |} 0 0].

Definition tiny_view (rc : option LevelView.Container) : LevelView.view :=
  LevelView.View (State tiny_heap tiny_level)
    (Some {| AssetLoader.base_from := "tileset.png" |}) rc [].

(** A manifest for examples, and a stand-in for [JSON.parse] that knows two
    texts. *)
Definition sample_assets : list AssetManifest.Asset :=
  [ {| AssetManifest.name := "playerSprite"; AssetManifest.path := "img/player.png";
       AssetManifest.type := "image"; AssetManifest.asset_version := "1";
       AssetManifest.hash := None |};
    {| AssetManifest.name := "jump"; AssetManifest.path := "audio/jump.mp3";
       AssetManifest.type := "audio"; AssetManifest.asset_version := "1";
       AssetManifest.hash := None |};
    {| AssetManifest.name := "playerSprite"; AssetManifest.path := "img/player2.png";
       AssetManifest.type := "image"; AssetManifest.asset_version := "2";
       AssetManifest.hash := Some "abc"%string |} ].

Definition sample_manifest : AssetManifest.Manifest :=
  {| AssetManifest.assets := Some sample_assets;
     AssetManifest.version := Some "1.0.0"%string |}.

Definition sample_parse (raw : string) : AssetManifest.parsed + string :=
  if bool_decide (raw = "null"%string) then inl AssetManifest.PNull
  else if bool_decide (raw = "manifest"%string)
       then inl (AssetManifest.PManifest sample_manifest)
       else inr "Unexpected token"%string.

(** ** renderer.js *)

Module Renderer.

(** The [PIXI.Application] as this file uses it: whether its ticker is
    started ([app.start()] starts the ticker, [app.stop()] stops it, and
    with [autoStart: false] it is stopped at first), how many containers
    were added to [app.stage], and whether its view was appended to the
    mount element. *)
Record Application : Type := {
  ticker_started : bool;
  stage_children : nat;
  view_mounted : bool;
}.

(** [options.mount]: missing or falsy, an element with an [appendChild]
    function, or something else. *)
Inductive mount_arg : Type :=
  | NoMount
  | Element
  | NotElement.

(** The [options] object; a missing property is [VUndefined]. *)
Record Options : Type := {
  o_width : jsval;
  o_height : jsval;
  o_mount : mount_arg;
}.

Inductive log_entry : Type :=
  | Debug (message : string)
  | Warning (message : string).

(** The fields of a [Renderer], with the logger calls made so far.
    [stage] holds the children of the root container; [None] is
    [undefined] before [init] and [null] after [destroy].  [app] is [None]
    once destroyed. *)
Record t : Type := Make {
  width : jsval;
  height : jsval;
  mount : mount_arg;
  app : option Application;
  stage : option (list jsval);
  _initialized : bool;
  logged : list log_entry;
}.

(** [v || d] *)
Definition or_default (v : jsval) (d : Z) : jsval :=
  if truthy v then v else VNum (int d).

(** [new Renderer(options)] *)
Definition new_Renderer (options : Options) : t :=
  let width := or_default (o_width options) 800 in
  let height := or_default (o_height options) 600 in
  let mount := o_mount options in
  let app := {| ticker_started := false; stage_children := 0;
                view_mounted :=
                  match mount with Element => true | _ => false end |} in
  Make width height mount (Some app) None false [].

Definition log (e : log_entry) (r : t) : t :=
  Make (width r) (height r) (mount r) (app r) (stage r) (_initialized r)
       (logged r ++ [e]).

(** [init()] *)
Definition init (r : t) : outcome () * t :=
  if _initialized r then
    (Return (), log (Debug "Renderer.init() called but already initialized.") r)
  else
    let r1 := Make (width r) (height r) (mount r) (app r) (Some [])
                (_initialized r) (logged r) in
    match app r1 with
    | None => (Throw TypeError, r1)
    | Some a =>
        let a' := {| ticker_started := ticker_started a;
                     stage_children := S (stage_children a);
                     view_mounted := view_mounted a |} in
        (Return (),
         log (Debug "Renderer initialized.")
           (Make (width r1) (height r1) (mount r1) (Some a') (stage r1) true
              (logged r1)))
    end.

(** [start()] *)
Definition start (r : t) : outcome () * t :=
  match (if negb (_initialized r) then init r else (Return (), r)) with
  | (Throw e, r1) => (Throw e, r1)
  | (Return _, r1) =>
      match app r1 with
      | None => (Throw TypeError, r1)
      | Some a =>
          if ticker_started a then
            (Return (),
             log (Debug "Renderer.start() called but ticker already started.") r1)
          else
            let a' := {| ticker_started := true;
                         stage_children := stage_children a;
                         view_mounted := view_mounted a |} in
            (Return (),
             log (Debug "Renderer started.")
               (Make (width r1) (height r1) (mount r1) (Some a') (stage r1)
                  (_initialized r1) (logged r1)))
      end
  end.

(** [stop()] *)
Definition stop (r : t) : outcome () * t :=
  match app r with
  | None => (Throw TypeError, r)
  | Some a =>
      if negb (ticker_started a) then
        (Return (),
         log (Debug "Renderer.stop() called but ticker already stopped.") r)
      else
        let a' := {| ticker_started := false;
                     stage_children := stage_children a;
                     view_mounted := view_mounted a |} in
        (Return (),
         log (Debug "Renderer stopped.")
           (Make (width r) (height r) (mount r) (Some a') (stage r)
              (_initialized r) (logged r)))
  end.

(** [addToStage(child)] *)
Definition addToStage (child : jsval) (r : t) : outcome () * t :=
  match (if negb (_initialized r) then init r else (Return (), r)) with
  | (Throw e, r1) => (Throw e, r1)
  | (Return _, r1) =>
      if negb (truthy child) then
        (Return (),
         log (Warning "Renderer.addToStage called with falsy child.") r1)
      else
        match stage r1 with
        | None => (Throw TypeError, r1)
        | Some children =>
            (Return (),
             Make (width r1) (height r1) (mount r1) (app r1)
               (Some (children ++ [child])) (_initialized r1) (logged r1))
        end
  end.

(** [destroy()] *)
Definition destroy (r : t) : outcome () * t :=
  let r1 :=
    match app r with
    | Some _ =>
        Make (width r) (height r) (mount r) None None (_initialized r)
          (logged r)
    | None => r
    end in
  (Return (), log (Debug "Renderer destroyed.") r1).

(** The calls a client can make, and running a list of them in order,
    stopping at the first that throws. *)
Inductive call : Type :=
  | Init
  | Start
  | Stop
  | AddToStage (child : jsval)
  | Destroy.

Definition perform (c : call) (r : t) : outcome () * t :=
  match c with
  | Init => init r
  | Start => start r
  | Stop => stop r
  | AddToStage child => addToStage child r
  | Destroy => destroy r
  end.

Fixpoint perform_all (cs : list call) (r : t) : outcome () * t :=
  match cs with
  | [] => (Return (), r)
  | c :: rest =>
      match perform c r with
      | (Throw e, r1) => (Throw e, r1)
      | (Return _, r1) => perform_all rest r1
      end
  end.

End Renderer.

(** What a list of renderer calls asks for: whether the last [start] or
    [stop] among them is a [start], whether any of them initialises the
    renderer ([init], [start] and [addToStage] do), and the truthy children
    handed to [addToStage], in order. *)
Definition wants_running (cs : list Renderer.call) : bool :=
  foldl (λ b c, match c with
                | Renderer.Start => true
                | Renderer.Stop => false
                | _ => b
                end) false cs.

Definition initialises (c : Renderer.call) : bool :=
  match c with
  | Renderer.Init | Renderer.Start | Renderer.AddToStage _ => true
  | _ => false
  end.

Definition added_child (c : Renderer.call) : option jsval :=
  match c with
  | Renderer.AddToStage child => if truthy child then Some child else None
  | _ => None
  end.

Definition is_destroy_call (c : Renderer.call) : bool :=
  match c with Renderer.Destroy => true | _ => false end.

(** The renderer is live, its ticker is [running], it is initialised or
    not, and its stage holds [children]. *)
Definition renderer_shape (o : Renderer.Options) (running inited : bool)
    (children : list jsval) (r : Renderer.t) : Prop :=
  Renderer.width r = Renderer.or_default (Renderer.o_width o) 800
  ∧ Renderer.height r = Renderer.or_default (Renderer.o_height o) 600
  ∧ Renderer.app r = Some {| Renderer.ticker_started := running;
                    Renderer.stage_children := if inited then 1 else 0;
                    Renderer.view_mounted :=
                      match Renderer.o_mount o with Renderer.Element => true | _ => false end |}
  ∧ Renderer._initialized r = inited
  ∧ Renderer.stage r = if inited then Some children else None.


(** ** level.js: the loader *)

From stdpp Require pretty.

Module Loader.

(** What [response.json()] resolves to: a document (an object with the five
    properties, of the types of [Document]), or a value without a [goal]
    property (a primitive, [null], some other object). *)
Inductive raw : Type :=
  | RawDocument (d : Document)
  | RawOther.

(** A [fetch] response. *)
Record Response : Type := {
  ok : bool;
  status : Z;
  json : outcome raw;
}.

(** The calls of [logger.error], in order. *)
Inductive log_entry : Type :=
  | ValidationFailed (errors : string)
      (* logger.error(`Level JSON validation failed: ${errors}`) *)
  | GoalOutOfBoundsLogged (x y : Z)
      (* logger.error(msg) in the constructor *)
  | LoadFailed (url : string) (err : error).
      (* logger.error(`Failed to load level from ${url}: ${err.message}`) *)

(** The thrown value is [null] or [undefined]: it has no properties to
    read. *)
Definition nullish (e : error) : bool :=
  match e with
  | Thrown VNull | Thrown VUndefined => true
  | _ => false
  end.

(** [new Level(json)] with the [logger.error] call the constructor makes
    just before it throws the bounds error.  A value without [goal] makes
    the constructor throw on [this.goal.x]. *)
Definition construct (h : heap) (json : raw)
    : outcome Level * list log_entry :=
  match json with
  | RawOther => (Throw TypeError, [])
  | RawDocument d =>
      match new_Level d h with
      | Throw (GoalOutOfBounds x y) =>
          (Throw (GoalOutOfBounds x y), [GoalOutOfBoundsLogged x y])
      | r => (r, [])
      end
  end.

Section Functions.

(** The compiled schema [validate] and [ajv.errorsText(validate.errors)];
    [h] holds the objects of the parsed document. *)
Variable validate : heap → raw → bool.
Variable errorsText : heap → raw → string.

(** The two [then] steps of [loadLevel(url)], given what [fetch(url)]
    settles to. *)
Definition load_steps (fetched : outcome Response) (h : heap)
    : outcome Level * list log_entry :=
  match fetched with
  | Throw e => (Throw e, [])
  | Return response =>
      if negb (ok response) then
        (Throw (Error_ ("Network response was not ok (status "
                        +:+ pretty.pretty (status response) +:+ ")")), [])
      else
        match json response with
        | Throw e => (Throw e, [])
        | Return json =>
            let valid := validate h json in
            if negb valid then
              let errors := errorsText h json in
              (Throw (Error_ ("Invalid level JSON: " +:+ errors)),
               [ValidationFailed errors])
            else construct h json
        end
  end.

(** [Level.loadLevel(url)]: the steps, then the [catch] handler, which logs
    and throws the error again.  The handler reads [err.message] to build
    the log message: when the promise was rejected with [null] or
    [undefined] that read throws a TypeError, before anything is logged,
    and the TypeError is what [loadLevel] rejects with. *)
Definition loadLevel (url : string) (fetched : outcome Response) (h : heap)
    : outcome Level * list log_entry :=
  match load_steps fetched h with
  | (Throw err, logs) =>
      if nullish err then (Throw TypeError, logs)
      else (Throw err, logs ++ [LoadFailed url err])
  | (Return L, logs) => (Return L, logs)
  end.

End Functions.
End Loader.

(** A stand-in for the compiled schema, for examples: documents pass. *)
Definition sample_validate (h : heap) (json : Loader.raw) : bool :=
  match json with Loader.RawDocument _ => true | Loader.RawOther => false end.

Definition sample_errorsText (h : heap) (json : Loader.raw) : string :=
  "data must be object".

(** * Properties *)

(** ** Numbers *)

Section NumFacts.

Lemma leb_int a b : leb (int a) (int b) = bool_decide (a ≤ b).
Proof. unfold leb, int. apply bool_decide_ext. symmetry. apply Z2Qc_inj_le. Qed.

Lemma ltb_int a b : ltb (int a) (int b) = bool_decide (a < b).
Proof. unfold ltb, int. apply bool_decide_ext. symmetry. apply Z2Qc_inj_lt. Qed.

Lemma eqb_int a b : eqb (int a) (int b) = bool_decide (a = b).
Proof.
  unfold eqb, int. apply bool_decide_ext. split.
  - intros [= H]. done.
  - by intros ->.
Qed.

(** Equality with a finite number is decided on the rationals. *)
Lemma num_fin_eq (a : num) (q : Qc) :
  match a with Fin p => Qeq_bool p q | _ => false end = true → a = Fin q.
Proof.
  destruct a as [| | |p]; try discriminate. intros H. f_equal.
  apply Qc_is_canon. by apply Qeq_bool_iff.
Qed.

Lemma mul_int a b : mul (int a) (int b) = int (a * b).
Proof. unfold mul, int. by rewrite Z2Qc_inj_mul. Qed.

Lemma add_int a b : add (int a) (int b) = int (a + b).
Proof. unfold add, int. by rewrite Z2Qc_inj_add. Qed.

Lemma tile_size_nonzero : Qc_of_Z TILE_SIZE ≠ 0%Qc.
Proof. by intros [=]. Qed.

Lemma tile_size_pos : (0 < Qc_of_Z TILE_SIZE)%Qc.
Proof. rewrite <- Z2Qc_inj_0. by apply Z2Qc_inj_lt. Qed.

Lemma Qfloor_ge (g : Z) (y : Qc) : g ≤ Qfloor y ↔ (Qc_of_Z g ≤ y)%Qc.
Proof.
  unfold Qcle. simpl. split.
  - intros H. eapply Qle_trans; [|apply Qfloor_le]. by rewrite <- Zle_Qle.
  - intros H. apply Qfloor_resp_le in H. by rewrite Qfloor_Z in H.
Qed.

Lemma div_tile_mul (q : Qc) :
  (q / Qc_of_Z TILE_SIZE * Qc_of_Z TILE_SIZE)%Qc = q.
Proof. rewrite Qcmult_comm. apply Qcmult_div_r, tile_size_nonzero. Qed.

(** [g <= floor(q / T)] exactly when [g * T <= q]. *)
Lemma tile_index_ge (g : Z) (q : Qc) :
  g ≤ tile_index q ↔ (Qc_of_Z (g * TILE_SIZE) ≤ q)%Qc.
Proof.
  unfold tile_index. rewrite Qfloor_ge.
  rewrite (Qcmult_le_mono_pos_r _ _ (Qc_of_Z TILE_SIZE)) by apply tile_size_pos.
  by rewrite div_tile_mul, Z2Qc_inj_mul.
Qed.

(** [floor(q / T) <= g] exactly when [q < g * T + T]. *)
Lemma tile_index_le (g : Z) (q : Qc) :
  tile_index q ≤ g ↔ (q < Qc_of_Z (g * TILE_SIZE + TILE_SIZE))%Qc.
Proof.
  replace (g * TILE_SIZE + TILE_SIZE) with ((g + 1) * TILE_SIZE) by lia.
  rewrite Qclt_nge, <- tile_index_ge. lia.
Qed.

Lemma any_in_true p lo hi :
  any_in p lo hi = true ↔ ∃ t, lo ≤ t ≤ hi ∧ p t = true.
Proof.
  unfold any_in. rewrite existsb_exists. split.
  - intros (t & Hin & Hp). exists t. split; [|done].
    apply list_elem_of_In, elem_of_seqZ in Hin. lia.
  - intros (t & Hr & Hp). exists t. split; [|done].
    apply list_elem_of_In, elem_of_seqZ. lia.
Qed.

Lemma any_in_empty p lo hi : hi < lo → any_in p lo hi = false.
Proof. intros. unfold any_in. by rewrite seqZ_nil by lia. Qed.

Lemma any_in_step p lo hi :
  lo ≤ hi → any_in p lo hi = p lo || any_in p (lo + 1) hi.
Proof.
  intros. unfold any_in. rewrite seqZ_cons by lia. simpl.
  do 3 f_equal; lia.
Qed.

End NumFacts.

(** ** Binary64 rounding *)

Section Binary64Facts.
Import F64.
Local Open Scope Qc_scope.

Lemma Z2Qc_pos (z : Z) : (0 < z)%Z → 0 < Qc_of_Z z.
Proof. intros. rewrite <- Z2Qc_inj_0. by rewrite <- Z2Qc_inj_lt. Qed.

Lemma Z2Qc_pow2_pos (n : Z) : (0 ≤ n)%Z → 0 < Qc_of_Z (2 ^ n).
Proof. intros. apply Z2Qc_pos. by apply Z.pow_pos_nonneg. Qed.

Lemma Z2Qc_pow2_ne (n : Z) : (0 ≤ n)%Z → Qc_of_Z (2 ^ n) ≠ 0.
Proof. intros Hn Hz. pose proof (Z2Qc_pow2_pos n Hn) as H. rewrite Hz in H. by apply Qclt_not_eq in H. Qed.

Lemma pow2_pos k : 0 < pow2 k.
Proof.
  unfold pow2. destruct (Z.leb_spec 0 k).
  - by apply Z2Qc_pow2_pos.
  - apply Qcinv_pos. apply Z2Qc_pow2_pos. lia.
Qed.

Lemma pow2_add_nonneg k n :
  (0 ≤ n)%Z → pow2 (k + n) = pow2 k * Qc_of_Z (2 ^ n).
Proof.
  intros Hn. unfold pow2.
  destruct (Z.leb_spec 0 k), (Z.leb_spec 0 (k + n)); try lia.
  - by rewrite Z.pow_add_r, Z2Qc_inj_mul by lia.
  - assert (E : (2 ^ n = 2 ^ (k + n) * 2 ^ (- k))%Z).
    { rewrite <- Z.pow_add_r by lia. f_equal. lia. }
    rewrite E, Z2Qc_inj_mul.
    rewrite (Qcmult_comm (Qc_of_Z (2 ^ (k + n)))), Qcmult_assoc.
    rewrite Qcmult_inv_l by (apply Z2Qc_pow2_ne; lia).
    by rewrite Qcmult_1_l.
  - assert (E : (2 ^ (- k) = 2 ^ (- (k + n)) * 2 ^ n)%Z).
    { rewrite <- Z.pow_add_r by lia. f_equal. lia. }
    rewrite E, Z2Qc_inj_mul.
    rewrite Qcinv_mult_distr, <- Qcmult_assoc.
    rewrite Qcmult_inv_l by (apply Z2Qc_pow2_ne; lia).
    by rewrite Qcmult_1_r.
Qed.

Lemma pow2_mono a b : (a ≤ b)%Z → pow2 a ≤ pow2 b.
Proof.
  intros Hab. replace b with (a + (b - a))%Z by lia.
  rewrite pow2_add_nonneg by lia.
  rewrite <- (Qcmult_1_r (pow2 a)) at 1.
  rewrite !(Qcmult_comm (pow2 a)).
  apply Qcmult_le_compat_r; [|apply Qclt_le_weak, pow2_pos].
  rewrite <- Z2Qc_inj_1. rewrite <- Z2Qc_inj_le.
  pose proof (Z.pow_pos_nonneg 2 (b - a)). lia.
Qed.

Lemma pow2_0 : pow2 0 = 1.
Proof. apply Z2Qc_inj_1. Qed.

Lemma pow2_nonneg k : (0 ≤ k)%Z → pow2 k = Qc_of_Z (2 ^ k).
Proof. intros. unfold pow2. by destruct (Z.leb_spec 0 k); [|lia]. Qed.

(** A rational is its numerator over its denominator. *)
Lemma Qcabs_num_den (q : Qc) :
  Qcabs q * Qc_of_Z (Zpos (Qden q)) = Qc_of_Z (Z.abs (Qnum q)).
Proof.
  apply Qc_is_canon. unfold Qcabs, Qcmult, Qc_of_Z, Q2Qc. cbn [Qcanon.this].
  rewrite !Qred_correct. destruct q as [[n d] Hc]. cbn [Qcanon.this Qnum Qden].
  unfold Qeq, Qabs, Qmult, inject_Z. cbn [Qnum Qden]. lia.
Qed.

Lemma exponent_le (q : Qc) : q ≠ 0 → pow2 (exponent q) ≤ Qcabs q.
Proof.
  intros Hq. unfold exponent. case_bool_decide as He; [done|].
  set (a := Z.abs (Qnum q)). set (b := Zpos (Qden q)).
  assert (Ha : (0 < a)%Z).
  { subst a. destruct (decide (Qnum q = 0%Z)) as [Hz|]; [|lia].
    exfalso. apply Hq. apply Qc_is_canon. destruct q as [[n d] Hc].
    cbn in Hz. subst n. done. }
  assert (Hb : (0 < b)%Z) by done.
  destruct (Z.log2_spec a Ha) as [Ha1 _].
  destruct (Z.log2_spec b Hb) as [_ Hb2].
  pose proof (Z.log2_nonneg a). pose proof (Z.log2_nonneg b).
  apply (Qcmult_lt_0_le_reg_r _ _ (Qc_of_Z b)); [by apply Z2Qc_pos|].
  pose proof (Qcabs_num_den q) as Hnd. fold a b in Hnd. rewrite Hnd.
  eapply Qcle_trans; [|rewrite <- Z2Qc_inj_le; apply Ha1].
  replace (Z.log2 a) with ((Z.log2 a - Z.log2 b - 1) + Z.succ (Z.log2 b))%Z at 2 by lia.
  rewrite <- (pow2_nonneg (_ + _)) by lia.
  rewrite pow2_add_nonneg by lia.
  rewrite !(Qcmult_comm (pow2 _)).
  apply Qcmult_le_compat_r; [|apply Qclt_le_weak, pow2_pos].
  rewrite <- Z2Qc_inj_le. lia.
Qed.


Lemma Qfloor_Z2Qc (m : Z) : Qfloor (Qc_of_Z m) = m.
Proof.
  unfold Qc_of_Z, Q2Qc. cbn [Qcanon.this].
  transitivity (Qfloor (inject_Z m)); [|apply Qfloor_Z].
  apply Qfloor_comp. reflexivity.
Qed.

Lemma nearest_even_Z (m : Z) : nearest_even (Qc_of_Z m) = m.
Proof.
  unfold nearest_even. rewrite Qfloor_Z2Qc.
  rewrite bool_decide_eq_true_2; [done|].
  unfold Qcminus. rewrite Qcplus_opp_r. done.
Qed.

(** A number [z * 2^k] whose [z] has at most 53 bits, and whose [k] is in
    the exponent range, is a binary64 value: rounding leaves it alone. *)
Lemma rnd_dyadic (z k : Z) :
  (Z.abs z < 2 ^ 53)%Z → (-1074 ≤ k)%Z → (k + 53 ≤ 1024)%Z →
  rnd (Qc_of_Z z * pow2 k) = Fin (Qc_of_Z z * pow2 k).
Proof.
  intros Hz Hk1 Hk2. unfold rnd.
  set (q := Qc_of_Z z * pow2 k).
  case_bool_decide as Hq0; [by rewrite Hq0|].
  assert (Habs : Qcabs q < pow2 (k + 53)).
  { subst q. rewrite Qcabs_Qcmult, (Qcabs_pos (pow2 k)) by apply Qclt_le_weak, pow2_pos.
    rewrite pow2_add_nonneg by lia. rewrite (Qcmult_comm (pow2 k)).
    apply Qcmult_lt_compat_r; [apply pow2_pos|].
    destruct (Z.abs_spec z) as [[? Ha]|[? Ha]].
    - rewrite Qcabs_pos by (rewrite <- Z2Qc_inj_0; by rewrite <- Z2Qc_inj_le).
      rewrite <- Z2Qc_inj_lt. lia.
    - rewrite Qcabs_neg by (rewrite <- Z2Qc_inj_0; rewrite <- Z2Qc_inj_le; lia).
      rewrite <- Z2Qc_inj_opp, <- Z2Qc_inj_lt. lia. }
  assert (He : (exponent q ≤ k + 52)%Z).
  { destruct (Z.le_gt_cases (exponent q) (k + 52)) as [|Hgt]; [done|].
    exfalso. apply (Qclt_not_le _ _ Habs).
    eapply Qcle_trans; [|apply exponent_le, Hq0].
    apply pow2_mono. lia. }
  set (u := (Z.max (exponent q) (-1022) - 52)%Z).
  assert (Hu : (u ≤ k)%Z) by lia.
  assert (Hm : q / pow2 u = Qc_of_Z (z * 2 ^ (k - u))).
  { subst q. replace k with (u + (k - u))%Z at 1 by lia.
    rewrite pow2_add_nonneg by lia.
    rewrite Z2Qc_inj_mul.
    rewrite (Qcmult_comm (pow2 u)), Qcmult_assoc.
    apply Qcdiv_mult_l. apply not_eq_sym, Qclt_not_eq, pow2_pos. }
  rewrite Hm, nearest_even_Z.
  assert (Hr : Qc_of_Z (z * 2 ^ (k - u)) * pow2 u = q).
  { subst q. rewrite Z2Qc_inj_mul, <- Qcmult_assoc. f_equal.
    rewrite Qcmult_comm, <- pow2_add_nonneg by lia. f_equal. lia. }
  rewrite Hr.
  rewrite bool_decide_eq_false_2; [done|].
  apply Qclt_not_le. eapply Qclt_le_trans; [apply Habs|].
  apply pow2_mono. lia.
Qed.

Lemma rnd_int (z : Z) :
  (Z.abs z < 2 ^ 53)%Z → rnd (Qc_of_Z z) = Fin (Qc_of_Z z).
Proof.
  intros Hz. pose proof (rnd_dyadic z 0 Hz) as H.
  rewrite pow2_0, Qcmult_1_r in H. apply H; lia.
Qed.

Lemma add64_int a b :
  (Z.abs (a + b) < 2 ^ 53)%Z → F64.add (int a) (int b) = int (a + b).
Proof. intros. unfold F64.add, int. rewrite <- Z2Qc_inj_add. by apply rnd_int. Qed.

Lemma succ64_int a :
  (Z.abs (a + 1) < 2 ^ 53)%Z → F64.succ (int a) = int (a + 1).
Proof. apply add64_int. Qed.

Lemma mul64_int a b :
  (Z.abs (a * b) < 2 ^ 53)%Z → F64.mul (int a) (int b) = int (a * b).
Proof. intros. unfold F64.mul, int. rewrite <- Z2Qc_inj_mul. by apply rnd_int. Qed.

(** Dividing a safe integer by the tile size rounds nothing. *)
Lemma floor_div64_int (a : Z) :
  (Z.abs a < 2 ^ 53)%Z →
  floor (F64.div (int a) (int TILE_SIZE)) = int (a / TILE_SIZE).
Proof.
  intros Ha. unfold F64.div, int.
  rewrite bool_decide_eq_false_2 by apply tile_size_nonzero.
  change (Qc_of_Z a / Qc_of_Z TILE_SIZE) with (Qc_of_Z a * pow2 (-5)).
  rewrite rnd_dyadic by (done || lia).
  cbn [floor]. unfold int. do 2 f_equal.
  rewrite Zdiv_Qdiv. apply Qfloor_comp.
  change (pow2 (-5)) with (/ Qc_of_Z TILE_SIZE).
  unfold Qcmult, Qcinv, Q2Qc, Qc_of_Z. cbn [Qcanon.this].
  by rewrite !Qred_correct.
Qed.

End Binary64Facts.

(** ** The tile scan of [detectCollision] *)

Section Scan.
Context {S : Type} (f : method S).

(** With integer bounds the counter can step through exactly, both loops
    finish, whatever [isSolid] does. *)
Lemma scan_row_terminates fuel ty tx ex w :
  steps_exactly tx ex →
  (Z.to_nat (ex + 1 - tx) < fuel)%nat →
  is_Some (scan_row fuel f ty (int tx) (int ex) w).
Proof.
  revert tx w. induction fuel as [|fuel IH]; intros tx w Hs Hf; [lia|].
  cbn [scan_row]. rewrite leb_int. case_bool_decide as Hle; [|done].
  destruct (f (int tx) ty w) as [[v|e] w']; [|done].
  destruct (truthy v); [done|].
  unfold steps_exactly in Hs. rewrite succ64_int by lia.
  apply IH; [unfold steps_exactly|]; lia.
Qed.

Lemma scan_rows_terminates fuel sx ex ty ey w :
  steps_exactly sx ex → steps_exactly ty ey →
  (Z.to_nat (ey + 1 - ty) + Z.to_nat (ex + 1 - sx) < fuel)%nat →
  is_Some (scan_rows fuel f (int sx) (int ex) (int ty) (int ey) w).
Proof.
  intros Hx. revert ty w. induction fuel as [|fuel IH]; intros ty w Hy Hf; [lia|].
  cbn [scan_rows]. rewrite leb_int. case_bool_decide as Hle; [|done].
  destruct (scan_row_terminates fuel (int ty) sx ex w) as [[r w'] ->];
    [done|lia|].
  destruct r as [[|]|e]; [done| |done].
  unfold steps_exactly in Hy. rewrite succ64_int by lia.
  apply IH; [unfold steps_exactly|]; lia.
Qed.

(** A read-only [isSolid] makes both loops read-only. *)
Lemma scan_row_frame fuel ty tx ex w r w' :
  read_only f →
  scan_row fuel f ty tx ex w = Some (r, w') → w' = w.
Proof.
  intros Hro. revert tx. induction fuel as [|fuel IH]; intros tx; [done|].
  cbn [scan_row]. destruct (leb tx ex); [|by intros [= _ <-]].
  specialize (Hro tx ty w).
  destruct (f tx ty w) as [[v|e] w1]; simpl in Hro; subst w1;
    [|by intros [= _ <-]].
  destruct (truthy v); [by intros [= _ <-]|]. apply IH.
Qed.

Lemma scan_rows_frame fuel sx ex ty ey w r w' :
  read_only f →
  scan_rows fuel f sx ex ty ey w = Some (r, w') → w' = w.
Proof.
  intros Hro. revert ty. induction fuel as [|fuel IH]; intros ty; [done|].
  cbn [scan_rows]. destruct (leb ty ey); [|by intros [= _ <-]].
  destruct (scan_row fuel f ty sx ex w) as [[r1 w1]|] eqn:Hrow; [|done].
  apply scan_row_frame in Hrow; [|done]. subst w1.
  destruct r1 as [[|]|e]; [by intros [= _ <-]| |by intros [= _ <-]].
  apply IH.
Qed.

(** An error that leaves the loops was thrown by [isSolid]. *)
Lemma scan_row_throw fuel ty tx ex w e w' :
  scan_row fuel f ty tx ex w = Some (Throw e, w') →
  ∃ a b w0, (f a b w0).1 = Throw e.
Proof.
  revert tx w. induction fuel as [|fuel IH]; intros tx w; [done|].
  cbn [scan_row]. destruct (leb tx ex); [|done].
  destruct (f tx ty w) as [[v|e1] w1] eqn:Hf.
  - destruct (truthy v); [done|]. apply IH.
  - intros [= -> _]. exists tx, ty, w. by rewrite Hf.
Qed.

Lemma scan_rows_throw fuel sx ex ty ey w e w' :
  scan_rows fuel f sx ex ty ey w = Some (Throw e, w') →
  ∃ a b w0, (f a b w0).1 = Throw e.
Proof.
  revert ty w. induction fuel as [|fuel IH]; intros ty w; [done|].
  cbn [scan_rows]. destruct (leb ty ey); [|done].
  destruct (scan_row fuel f ty sx ex w) as [[r1 w1]|] eqn:Hrow; [|done].
  destruct r1 as [[|]|e1]; [done|apply IH|].
  intros [= -> _]. by eapply scan_row_throw.
Qed.

(** Against an [isSolid] that is a pure boolean predicate on tiles, the
    loops compute the disjunction over the enumerated range. *)
Lemma scan_row_int fuel w ty tx ex :
  pure_at_tiles f w →
  steps_exactly tx ex →
  (Z.to_nat (ex + 1 - tx) < fuel)%nat →
  scan_row fuel f (int ty) (int tx) (int ex) w
  = Some (Return (any_in (λ t, solid_at f w t ty) tx ex), w).
Proof.
  intros Hpure.
  revert tx. induction fuel as [|fuel IH]; intros tx Hs Hf; [lia|].
  cbn [scan_row]. rewrite leb_int. case_bool_decide as Hle.
  - rewrite any_in_step by done. unfold solid_at at 1.
    destruct (Hpure tx ty) as [b ->]. cbn [truthy].
    destruct b; [done|]. cbn [orb].
    unfold steps_exactly in Hs. rewrite succ64_int by lia.
    apply IH; [unfold steps_exactly|]; lia.
  - by rewrite any_in_empty by lia.
Qed.

Lemma scan_rows_int fuel w sx ex ty ey :
  pure_at_tiles f w →
  steps_exactly sx ex → steps_exactly ty ey →
  (Z.to_nat (ey + 1 - ty) + Z.to_nat (ex + 1 - sx) < fuel)%nat →
  scan_rows fuel f (int sx) (int ex) (int ty) (int ey) w
  = Some (Return (any_in (λ r, any_in (λ t, solid_at f w t r) sx ex) ty ey), w).
Proof.
  intros Hpure Hx.
  revert ty. induction fuel as [|fuel IH]; intros ty Hy Hf; [lia|].
  cbn [scan_rows]. rewrite leb_int. case_bool_decide as Hle.
  - rewrite (any_in_step _ ty) by done.
    rewrite scan_row_int by (done || lia).
    destruct (any_in _ sx ex); [done|]. cbn [orb].
    unfold steps_exactly in Hy. rewrite succ64_int by lia.
    apply IH; [unfold steps_exactly|]; lia.
  - by rewrite any_in_empty by lia.
Qed.

(** [detectCollision] on a rectangle of four numbers is the scan of the
    range it computes. *)
Lemma detectCollision_numbers fuel w x y wd ht :
  number_rect (w_rect w) x y wd ht →
  detectCollision fuel (LObject (PFunction f)) w
  = scan_rows fuel f
      (floor (F64.div x (int TILE_SIZE)))
      (floor (F64.div (F64.add x wd) (int TILE_SIZE)))
      (floor (F64.div y (int TILE_SIZE)))
      (floor (F64.div (F64.add y ht) (int TILE_SIZE))) w.
Proof.
  intros (Hx & Hy & Hw & Hh). unfold detectCollision.
  rewrite Hx, Hy, Hw, Hh.
  by destruct (w_rect w) as [| | | | |props]; try discriminate Hx.
Qed.

Lemma detectCollision_scanned fuel w sx ex sy ey :
  scanned_range (w_rect w) sx ex sy ey →
  detectCollision fuel (LObject (PFunction f)) w
  = scan_rows fuel f (int sx) (int ex) (int sy) (int ey) w.
Proof.
  intros (x & y & wd & ht & Hrect & Hsx & Hex & Hsy & Hey).
  rewrite (detectCollision_numbers fuel w x y wd ht Hrect).
  by rewrite Hsx, Hex, Hsy, Hey.
Qed.

(** Both loops finish, with the disjunction over the range, when every
    index of the range can be counted exactly. *)
Lemma detectCollision_scan fuel w sx ex sy ey :
  scanned_range (w_rect w) sx ex sy ey →
  steps_exactly sx ex → steps_exactly sy ey →
  pure_at_tiles f w →
  (Z.to_nat (ey + 1 - sy) + Z.to_nat (ex + 1 - sx) < fuel)%nat →
  detectCollision fuel (LObject (PFunction f)) w
  = Some (Return (any_in (λ r, any_in (λ t, solid_at f w t r) sx ex) sy ey), w).
Proof.
  intros Hr Hx Hy Hpure Hfuel. rewrite (detectCollision_scanned _ _ _ _ _ _ Hr).
  by apply scan_rows_int.
Qed.

End Scan.

(** ** [detectCollision] *)

(** C1, as the code has it.  Let [startX = floor(x/32)],
    [endX = floor((x+width)/32)], [startY = floor(y/32)] and
    [endY = floor((y+height)/32)] be the loop bounds as the code computes
    them, in binary64.  If the loop counters can step through them exactly
    (all of them below [2^53] in magnitude) and the level's [isSolid] is a
    boolean predicate on tiles, the call returns, and it returns [true]
    exactly when some tile [(tx, ty)] with [startX <= tx <= endX] and
    [startY <= ty <= endY] has [isSolid(tx, ty) = true]. *)
Theorem detectCollision_true_iff_solid_tile_in_range
    {S : Type} (f : method S) (w : world S) (sx ex sy ey : Z) :
  scanned_range (w_rect w) sx ex sy ey →
  steps_exactly sx ex → steps_exactly sy ey →
  pure_at_tiles f w →
  ∃ N : nat, ∀ fuel, (N ≤ fuel)%nat →
    ∃ b : bool,
      detectCollision fuel (LObject (PFunction f)) w = Some (Return b, w)
      ∧ (b = true ↔
         ∃ tx ty : Z,
           sx ≤ tx ≤ ex ∧ sy ≤ ty ≤ ey
           ∧ f (int tx) (int ty) w = (Return (VBool true), w)).
Proof.
  intros Hrange Hx Hy Hpure.
  exists (Datatypes.S (Z.to_nat (ey + 1 - sy) + Z.to_nat (ex + 1 - sx))).
  intros fuel Hfuel. eexists. split.
  - apply detectCollision_scan; [done..|lia].
  - rewrite any_in_true. split.
    + intros (ty & Hty & Hrow). apply any_in_true in Hrow as (tx & Htx & Hs).
      exists tx, ty. repeat split; try lia.
      unfold solid_at in Hs. destruct (Hpure tx ty) as [b Hb].
      rewrite Hb in Hs |- *. cbn in Hs. by subst b.
    + intros (tx & ty & Htx & Hty & Hs). exists ty. split; [done|].
      apply any_in_true. exists tx. split; [done|].
      unfold solid_at. by rewrite Hs.
Qed.

Lemma detectCollision_true_iff_solid_tile_in_range_witness :
  let w := World (rect_object (int_rect 64 64 32 32)) () in
  ∃ N : nat, ∀ fuel, (N ≤ fuel)%nat →
    ∃ b : bool,
      detectCollision fuel mockLevel w = Some (Return b, w)
      ∧ (b = true ↔
         ∃ tx ty : Z,
           2 ≤ tx ≤ 3 ∧ 2 ≤ ty ≤ 3
           ∧ mock_isSolid (int tx) (int ty) w = (Return (VBool true), w)).
Proof.
  intros w.
  apply (detectCollision_true_iff_solid_tile_in_range mock_isSolid w 2 3 2 3).
  - exists (int 64), (int 64), (int 32), (int 32).
    split; [repeat split; reflexivity|].
    repeat split; vm_compute; reflexivity.
  - unfold steps_exactly. lia.
  - unfold steps_exactly. lia.
  - intros tx ty. eexists. reflexivity.
Defined.

(** Beyond [2^53] the loop counter stops advancing: [2^53 + 1] is not a
    binary64 value, and [tx++] leaves [tx] at [2^53]. *)
Lemma scan_row_stalls fuel ty w :
  scan_row fuel far_isSolid ty (int (2 ^ 53)) (int (2 ^ 53 + 4)) w = None.
Proof.
  induction fuel as [|fuel IH]; [done|].
  cbn [scan_row]. rewrite leb_int, bool_decide_eq_true_2 by lia.
  unfold far_isSolid at 1. rewrite eqb_int, bool_decide_eq_false_2 by lia.
  cbn [andb truthy].
  replace (F64.succ (int (2 ^ 53))) with (int (2 ^ 53))
    by (symmetry; apply num_fin_eq; vm_compute; reflexivity).
  exact IH.
Qed.

Lemma far_rect_never_returns fuel :
  detectCollision fuel (LObject (PFunction far_isSolid)) (World far_rect ())
  = None.
Proof.
  rewrite (detectCollision_scanned far_isSolid fuel (World far_rect ())
             (2 ^ 53) (2 ^ 53 + 4) 0 0).
  - destruct fuel as [|fuel]; [done|]. cbn [scan_rows].
    rewrite leb_int, bool_decide_eq_true_2 by lia.
    by rewrite scan_row_stalls.
  - exists (int (2 ^ 58)), (int 0), (int 128), (int 0).
    split; [repeat split; reflexivity|].
    repeat split; vm_compute; reflexivity.
Qed.

(** C1, as stated, fails in two ways.  For the rectangle [{x: 2^58, y: 0,
    width: 128, height: 0}] the floored range of columns is
    [[2^53, 2^53 + 4]] and the tile [(2^53 + 2, 0)] in it is solid, yet the
    call never returns.  For the rectangle [{x: 64 - 2^-47, y: 64,
    width: 3 * 2^-49, height: 0}] and the mock level of the collision
    tests, the floored range is the single tile [(1, 2)], which is not
    solid, yet the call returns [true]: the sum [x + width] rounds to 64,
    and the scan reaches the solid tile [(2, 2)]. *)
Lemma detectCollision_differs_from_floored_range :
  (finite_rect far_rect (Qc_of_Z (2 ^ 58)) (Qc_of_Z 0) (Qc_of_Z 128) (Qc_of_Z 0)
   ∧ pure_at_tiles far_isSolid (World far_rect ())
   ∧ (∀ fuel,
        detectCollision fuel (LObject (PFunction far_isSolid))
          (World far_rect ()) = None)
   ∧ ¬ returns_true_iff_solid_tile_in_range far_isSolid (World far_rect ())
         (Qc_of_Z (2 ^ 58)) (Qc_of_Z 0) (Qc_of_Z 128) (Qc_of_Z 0))
  ∧ (finite_rect rounded_rect rounded_rect_x (Qc_of_Z 64)
       rounded_rect_width (Qc_of_Z 0)
     ∧ pure_at_tiles mock_isSolid (World rounded_rect ())
     ∧ (∀ fuel, (4 ≤ fuel)%nat →
          detectCollision fuel mockLevel (World rounded_rect ())
          = Some (Return true, World rounded_rect ()))
     ∧ ¬ returns_true_iff_solid_tile_in_range mock_isSolid
           (World rounded_rect ())
           rounded_rect_x (Qc_of_Z 64) rounded_rect_width (Qc_of_Z 0)).
Proof.
  split.
  - split; [repeat split; reflexivity|].
    split; [intros tx ty; by eexists|].
    split; [apply far_rect_never_returns|].
    intros [N HN]. destruct (HN N) as (b & Hrun & _); [lia|].
    by rewrite far_rect_never_returns in Hrun.
  - assert (Hrun : ∀ fuel, (4 ≤ fuel)%nat →
              detectCollision fuel mockLevel (World rounded_rect ())
              = Some (Return true, World rounded_rect ())).
    { intros fuel Hfuel. unfold mockLevel.
      rewrite (detectCollision_scan mock_isSolid fuel (World rounded_rect ())
                 1 2 2 2).
      - vm_compute. reflexivity.
      - exists (Fin rounded_rect_x), (int 64), (Fin rounded_rect_width), (int 0).
        split; [repeat split; reflexivity|].
        repeat split; vm_compute; reflexivity.
      - unfold steps_exactly. lia.
      - unfold steps_exactly. lia.
      - intros tx ty. by eexists.
      - lia. }
    split; [repeat split; reflexivity|].
    split; [intros tx ty; by eexists|].
    split; [done|].
    intros [N HN]. destruct (HN (N + 4)%nat) as (b & Hb & Hiff); [lia|].
    rewrite Hrun in Hb by lia. injection Hb as <-.
    destruct Hiff as [Hiff _].
    destruct (Hiff eq_refl) as (tx & ty & Htx & Hty & Hs).
    replace (tile_index rounded_rect_x) with 1 in Htx
      by (vm_compute; reflexivity).
    replace (tile_index (rounded_rect_x + rounded_rect_width)) with 1 in Htx
      by (vm_compute; reflexivity).
    replace (tile_index (Qc_of_Z 64)) with 2 in Hty
      by (vm_compute; reflexivity).
    replace (tile_index (Qc_of_Z 64 + Qc_of_Z 0)) with 2 in Hty
      by (vm_compute; reflexivity).
    assert (tx = 1) as -> by lia. assert (ty = 2) as -> by lia.
    vm_compute in Hs. discriminate.
Qed.

Lemma new_Level_valid_document :
  new_Level valid_document valid_heap = Return valid_level.
Proof. vm_compute. reflexivity. Qed.

Lemma detectCollision_unchecked_rect {S} fuel (level : level_ref S) w :
  checked_playerRect (w_rect w) = false →
  detectCollision fuel level w = Some (Throw InvalidPlayerRect, w).
Proof.
  unfold checked_playerRect, detectCollision.
  destruct (truthy (w_rect w)); [|done].
  destruct (get (w_rect w) "x"); try done.
  destruct (get (w_rect w) "y"); try done.
  destruct (get (w_rect w) "width"); try done.
  destruct (get (w_rect w) "height"); done.
Qed.

Lemma detectCollision_checked_rect {S} fuel (level : level_ref S) w :
  checked_playerRect (w_rect w) = true →
  ∃ x y wd ht,
    detectCollision fuel level w
    = match level with
      | LObject (PFunction isSolid) =>
          scan_rows fuel isSolid
            (floor (F64.div x (int TILE_SIZE)))
            (floor (F64.div (F64.add x wd) (int TILE_SIZE)))
            (floor (F64.div y (int TILE_SIZE)))
            (floor (F64.div (F64.add y ht) (int TILE_SIZE))) w
      | _ => Some (Throw InvalidLevel, w)
      end.
Proof.
  unfold checked_playerRect, detectCollision.
  destruct (truthy (w_rect w)); [|done].
  destruct (get (w_rect w) "x") as [| | |x| |]; try done.
  destruct (get (w_rect w) "y") as [| | |y| |]; try done.
  destruct (get (w_rect w) "width") as [| | |wd| |]; try done.
  destruct (get (w_rect w) "height") as [| | |ht| |]; try done.
  intros _. by exists x, y, wd, ht.
Qed.

(** C7, as the code has it.  The call fails with one of its two
    invalid-argument errors exactly when its own check fails: [playerRect] is
    falsy or one of [x], [y], [width], [height] is not of type number, or
    [level] is falsy or [level.isSolid] is not a function.  Finiteness of
    the numbers plays no part. *)
Theorem detectCollision_fails_iff_check_fails
    {S : Type} (fuel : nat) (level : level_ref S) (w : world S) :
  throws_no_invalid_argument level →
  fails_invalid_argument fuel level w
  ↔ checked_playerRect (w_rect w) && callable_isSolid level = false.
Proof.
  intros Hcallee. split.
  - intros (e & w' & He & Hrun).
    destruct (checked_playerRect (w_rect w)) eqn:Hchk; [|done].
    destruct (detectCollision_checked_rect fuel level w Hchk)
      as (x & y & wd & ht & Heq).
    rewrite Heq in Hrun.
    destruct level as [|[f|v]]; [done| |done].
    apply scan_rows_throw in Hrun as (a & b & w0 & Hthrow).
    apply Hcallee in Hthrow. congruence.
  - intros Hchk. apply andb_false_iff in Hchk as [Hchk|Hcall].
    + exists InvalidPlayerRect, w. split; [done|].
      by apply detectCollision_unchecked_rect.
    + destruct (checked_playerRect (w_rect w)) eqn:Hchk.
      * destruct (detectCollision_checked_rect fuel level w Hchk)
          as (x & y & wd & ht & Heq).
        exists InvalidLevel, w. split; [done|]. rewrite Heq.
        by destruct level as [|[f|v]].
      * exists InvalidPlayerRect, w. split; [done|].
        by apply detectCollision_unchecked_rect.
Qed.

Lemma detectCollision_fails_iff_check_fails_witness :
  fails_invalid_argument 10 mockLevel (World VNull ())
  ↔ checked_playerRect VNull && callable_isSolid mockLevel = false.
Proof.
  apply (detectCollision_fails_iff_check_fails 10 mockLevel (World VNull ())).
  simpl. intros x y w e. discriminate.
Defined.

(** C7, as stated, fails: a rectangle whose [x] is NaN violates the
    specification's precondition, yet the call returns [false]. *)
Lemma detectCollision_nan_returns_false :
  detectCollision 10 mockLevel (World nan_rect ())
  = Some (Return false, World nan_rect ())
  ∧ ¬ fails_iff_spec_precondition 10 mockLevel (World nan_rect ()).
Proof.
  assert (Hrun : detectCollision 10 mockLevel (World nan_rect ())
                 = Some (Return false, World nan_rect ()))
    by (vm_compute; reflexivity).
  split; [done|].
  intros [_ Hfail].
  destruct Hfail as (e & w' & _ & Hthrow); [reflexivity|].
  rewrite Hrun in Hthrow. discriminate.
Qed.

(** With [x = +Infinity] the check passes as well, and the inner loop never
    ends: [tx] stays at +Infinity. *)
Lemma scan_row_at_infinity fuel ty w :
  scan_row fuel mock_isSolid ty PInf PInf w = None.
Proof.
  induction fuel as [|fuel IH]; [done|].
  cbn [scan_row leb]. unfold mock_isSolid at 1.
  replace (eqb PInf (int 2)) with false by done.
  replace (eqb PInf (int 3)) with false by done.
  cbn [andb orb truthy]. exact IH.
Qed.

Lemma detectCollision_infinite_x_never_returns fuel :
  detectCollision fuel mockLevel (World inf_rect ()) = None.
Proof.
  change (detectCollision fuel mockLevel (World inf_rect ()))
    with (scan_rows fuel mock_isSolid
            (floor (F64.div PInf (int TILE_SIZE)))
            (floor (F64.div (F64.add PInf (int 32)) (int TILE_SIZE)))
            (floor (F64.div (int 0) (int TILE_SIZE)))
            (floor (F64.div (F64.add (int 0) (int 32)) (int TILE_SIZE)))
            (World inf_rect ())).
  replace (floor (F64.div PInf (int TILE_SIZE))) with PInf
    by (vm_compute; done).
  replace (floor (F64.div (F64.add PInf (int 32)) (int TILE_SIZE))) with PInf
    by (vm_compute; done).
  destruct fuel as [|fuel]; [done|]. cbn [scan_rows].
  replace (leb (floor (F64.div (int 0) (int TILE_SIZE)))
               (floor (F64.div (F64.add (int 0) (int 32)) (int TILE_SIZE))))
    with true by (vm_compute; done).
  by rewrite scan_row_at_infinity.
Qed.

(** ** Frame *)

Lemma isSolid_state x y st : (isSolid x y st).2 = st.
Proof.
  unfold isSolid. destruct (_ || _); [done|].
  by destruct (array_get _ y).
Qed.

Lemma isSolid_method_read_only : read_only isSolid_method.
Proof.
  intros x y [r st]. unfold isSolid_method. cbn [w_level w_rect].
  pose proof (isSolid_state x y st) as H.
  destruct (isSolid x y st) as [o st']. simpl in *. by subst.
Qed.

(** C8.  A call of [detectCollision] whose level object has a read-only
    [isSolid] (such as a [Level] instance) leaves the player rectangle and
    the level state exactly as they were, whatever it returns or throws; and
    on a rectangle whose loop bounds the counters can step through exactly
    it does return or throw. *)
Theorem detectCollision_leaves_inputs_unchanged
    {S : Type} (level : level_ref S) (w : world S) :
  level_read_only level →
  (∀ fuel r w', detectCollision fuel level w = Some (r, w') → w' = w)
  ∧ (∀ sx ex sy ey,
       scanned_range (w_rect w) sx ex sy ey →
       steps_exactly sx ex → steps_exactly sy ey →
       ∃ N : nat, ∀ fuel, (N ≤ fuel)%nat →
         ∃ r, detectCollision fuel level w = Some (r, w)).
Proof.
  intros Hro.
  assert (Hframe : ∀ fuel r w',
             detectCollision fuel level w = Some (r, w') → w' = w).
  { intros fuel r w' Hrun.
    destruct (checked_playerRect (w_rect w)) eqn:Hchk.
    - destruct (detectCollision_checked_rect fuel level w Hchk)
        as (x & y & wd & ht & Heq).
      rewrite Heq in Hrun.
      destruct level as [|[f|v]]; [by injection Hrun| |by injection Hrun].
      by eapply scan_rows_frame.
    - rewrite detectCollision_unchecked_rect in Hrun by done.
      by injection Hrun. }
  split; [done|].
  intros sx ex sy ey Hrange Hsx Hsy.
  exists (Datatypes.S (Z.to_nat (ey + 1 - sy) + Z.to_nat (ex + 1 - sx))).
  intros fuel Hfuel.
  assert (Hsome : is_Some (detectCollision fuel level w)).
  { destruct level as [|[f|v]].
    - destruct Hrange as (x & y & wd & ht & (Hx & Hy & Hw & Hh) & _).
      unfold detectCollision.
      rewrite Hx, Hy, Hw, Hh. by destruct (truthy _).
    - rewrite (detectCollision_scanned f fuel w sx ex sy ey Hrange).
      apply scan_rows_terminates; [done..|lia].
    - destruct Hrange as (x & y & wd & ht & (Hx & Hy & Hw & Hh) & _).
      unfold detectCollision.
      rewrite Hx, Hy, Hw, Hh. by destruct (truthy _). }
  destruct Hsome as [[r w'] Hrun]. exists r.
  by rewrite Hrun, (Hframe _ _ _ Hrun).
Qed.

Lemma detectCollision_leaves_inputs_unchanged_witness :
  let w := World (rect_object (int_rect 48 48 32 32))
                 (State valid_heap valid_level) in
  (∀ fuel r w', detectCollision fuel as_level w = Some (r, w') → w' = w)
  ∧ (∀ sx ex sy ey,
       scanned_range (w_rect w) sx ex sy ey →
       steps_exactly sx ex → steps_exactly sy ey →
       ∃ N : nat, ∀ fuel, (N ≤ fuel)%nat →
         ∃ r, detectCollision fuel as_level w = Some (r, w)).
Proof.
  intros w.
  apply (detectCollision_leaves_inputs_unchanged as_level w).
  simpl. intros x y [r st]. unfold isSolid_method. simpl.
  unfold isSolid. destruct (_ || _); [reflexivity|].
  destruct (array_get _ y); reflexivity.
Defined.

(** ** Construction of a [Level] *)

Section Build.
Lemma array_set_next {A} (pre rest : array A) (i : nat) (v : A) :
  length pre = i →
  array_set i v (pre ++ None :: rest) = (pre ++ [Some v]) ++ rest.
Proof.
  intros <-. unfold array_set.
  rewrite bool_decide_eq_true_2 by (rewrite length_app; simpl; lia).
  rewrite insert_app_r_alt by lia. rewrite Nat.sub_diag. simpl.
  by rewrite <- app_assoc.
Qed.

Lemma fill_row_Some n x ids r (pre : array bool) :
  length pre = x →
  fill_row n x ids (Some r) (pre ++ replicate n None)
  = Return (pre ++ ((λ i, Some (has ids (r !! i))) <$> seq x n)).
Proof.
  revert x pre. induction n as [|n IH]; intros x pre Hlen.
  - simpl. by rewrite !app_nil_r.
  - cbn [fill_row replicate]. rewrite array_set_next by done.
    rewrite IH by (rewrite length_app; simpl; lia).
    simpl. by rewrite <- app_assoc.
Qed.

Lemma fill_row_new w ids r :
  fill_row (Z.to_nat w) 0 ids (Some r) (new_Array w)
  = Return (expected_row w ids r).
Proof. apply (fill_row_Some _ 0 ids r []). done. Qed.

Lemma fill_grid_cases n y w ids tls (pre : array (array bool)) :
  (0 < Z.to_nat w)%nat →
  length pre = y →
  (Forall (λ j, is_Some (tls ≫= (.!! j))) (seq y n)
   ∧ fill_grid n y w ids tls (pre ++ replicate n None)
     = Return (pre ++ ((λ j, Some (expected_row w ids (default [] (tls ≫= (.!! j)))))
                       <$> seq y n)))
  ∨ (¬ Forall (λ j, is_Some (tls ≫= (.!! j))) (seq y n)
     ∧ fill_grid n y w ids tls (pre ++ replicate n None) = Throw TypeError).
Proof.
  intros Hw. revert y pre. induction n as [|n IH]; intros y pre Hlen.
  - left. split; [constructor|]. simpl. by rewrite !app_nil_r.
  - cbn [fill_grid replicate seq].
    destruct (tls ≫= (.!! y)) as [r|] eqn:Hrow.
    + rewrite fill_row_new. rewrite array_set_next by done.
      destruct (IH (Datatypes.S y) (pre ++ [Some (expected_row w ids r)]))
        as [[Hall ->]|[Hnot ->]].
      * rewrite length_app; simpl; lia.
      * left. split.
        -- constructor; [by rewrite Hrow|done].
        -- cbn [fmap list_fmap]. rewrite Hrow. simpl. by rewrite <- app_assoc.
      * right. split; [|done]. intros Hall. apply Hnot.
        by apply Forall_cons in Hall as [_ ?].
    + right. split.
      * intros Hall. apply Forall_cons in Hall as [Hs _].
        rewrite Hrow in Hs. by destruct Hs.
      * destruct (Z.to_nat w) eqn:E; [lia|]. done.
Qed.
End Build.

Lemma lookup_fmap_seq {A} (f : nat → A) (n i : nat) :
  (i < n)%nat → (f <$> seq 0 n) !! i = Some (f i).
Proof.
  intros Hi. rewrite list_lookup_fmap, lookup_seq_lt by done. done.
Qed.

(** What a successful construction looks like. *)
Lemma new_Level_Return d h L :
  new_Level d h = Return L →
  ∃ g m,
    h_goals h !! d_goal d = Some g
    ∧ h_tiles h !! d_tiles d = Some m
    ∧ 0 ≤ px g < d_width d ∧ 0 ≤ py g < d_height d
    ∧ (∀ j, (j < Z.to_nat (d_height d))%nat → is_Some (m !! j))
    ∧ L = {| width := d_width d; height := d_height d; tiles := d_tiles d;
             collisionTileIds := list_to_set (d_collision d);
             goal := d_goal d;
             collisionGrid :=
               (λ j, Some (expected_row (d_width d) (list_to_set (d_collision d))
                             (default [] (m !! j))))
               <$> seq 0 (Z.to_nat (d_height d));
             _goalReached := VUndefined; emitted := [] |}.
Proof.
  unfold new_Level. destruct (h_goals h !! d_goal d) as [g|]; [|done].
  destruct (_ || _) eqn:Hb; [done|].
  apply orb_false_elim in Hb as [Hb Hb4]. apply orb_false_elim in Hb as [Hb Hb3].
  apply orb_false_elim in Hb as [Hb1 Hb2].
  assert (Hbounds : 0 ≤ px g < d_width d ∧ 0 ≤ py g < d_height d) by lia.
  destruct (fill_grid_cases (Z.to_nat (d_height d)) 0 (d_width d)
              (list_to_set (d_collision d)) (h_tiles h !! d_tiles d) [])
    as [[Hall Hgrid]|[_ Hgrid]]; [lia|done| |];
    unfold new_Array; simpl in Hgrid; rewrite Hgrid; [|done].
  intros [= <-].
  destruct (h_tiles h !! d_tiles d) as [m|] eqn:Hm.
  - exists g, m. repeat split; try lia.
    intros j Hj. rewrite Forall_forall in Hall.
    apply (Hall j). apply elem_of_seq. lia.
  - exfalso. rewrite Forall_forall in Hall.
    destruct (Hall 0%nat) as [? ?]; [apply elem_of_seq; lia|done].
Qed.

Lemma new_Level_cell (d : Document) (h : heap) (L : Level) (tx ty : Z) :
  new_Level d h = Return L →
  0 ≤ tx < width L → 0 ≤ ty < height L →
  ∃ row b, collisionGrid L !! Z.to_nat ty = Some (Some row)
           ∧ row !! Z.to_nat tx = Some (Some b).
Proof.
  intros Hnew.
  apply new_Level_Return in Hnew as (g & m & _ & _ & _ & _ & _ & ->).
  cbn [width height collisionGrid]. intros Htx Hty.
  eexists _, _. split.
  - by rewrite lookup_fmap_seq by lia.
  - unfold expected_row. by rewrite lookup_fmap_seq by lia.
Qed.

(** C2.  A constructed [Level] has a collision grid of exactly [height]
    rows of exactly [width] entries, and the entry at an in-bounds [(x, y)]
    is the membership of [tiles[y][x]] in the set built from the document's
    [collision] array. *)
Theorem collisionGrid_matches_tiles (d : Document) (h : heap) (L : Level) :
  new_Level d h = Return L →
  width L = d_width d ∧ height L = d_height d
  ∧ length (collisionGrid L) = Z.to_nat (height L)
  ∧ ∀ y, 0 ≤ y < height L →
      ∃ row, collisionGrid L !! Z.to_nat y = Some (Some row)
             ∧ length row = Z.to_nat (width L)
             ∧ ∀ x, 0 ≤ x < width L →
                 row !! Z.to_nat x
                 = Some (Some (has (list_to_set (d_collision d)) (tile_at h d x y))).
Proof.
  intros Hnew.
  apply new_Level_Return in Hnew as (g & m & Hg & Hm & Hgx & Hgy & Hrows & ->).
  cbn [width height collisionGrid].
  split; [done|]. split; [done|]. split.
  { by rewrite length_fmap, length_seq. }
  intros y Hy.
  exists (expected_row (d_width d) (list_to_set (d_collision d))
            (default [] (m !! Z.to_nat y))).
  split; [|split].
  - by rewrite lookup_fmap_seq by lia.
  - unfold expected_row. by rewrite length_fmap, length_seq.
  - intros x Hx. unfold expected_row. rewrite lookup_fmap_seq by lia.
    unfold tile_at. rewrite Hm. simpl.
    destruct (Hrows (Z.to_nat y)) as [row ->]; [lia|]. done.
Qed.

Lemma collisionGrid_matches_tiles_witness :
  width valid_level = d_width valid_document
  ∧ height valid_level = d_height valid_document
  ∧ length (collisionGrid valid_level) = Z.to_nat (height valid_level)
  ∧ ∀ y, 0 ≤ y < height valid_level →
      ∃ row, collisionGrid valid_level !! Z.to_nat y = Some (Some row)
             ∧ length row = Z.to_nat (width valid_level)
             ∧ ∀ x, 0 ≤ x < width valid_level →
                 row !! Z.to_nat x
                 = Some (Some (has (list_to_set (d_collision valid_document))
                                 (tile_at valid_heap valid_document x y))).
Proof.
  apply (collisionGrid_matches_tiles valid_document valid_heap valid_level).
  vm_compute. reflexivity.
Defined.

(** C6.  For a document that passes schema validation, construction fails
    exactly when the goal is out of bounds, the failure is the bounds error
    and yields no [Level]; otherwise construction succeeds and the goal of
    the resulting [Level] is within [[0, width) x [0, height)]. *)
Theorem new_Level_fails_iff_goal_out_of_bounds
    (d : Document) (h : heap) (g : Point) :
  schema_valid h d →
  h_goals h !! d_goal d = Some g →
  ((∃ e, new_Level d h = Throw e) ↔ goal_out_of_bounds d g)
  ∧ (goal_out_of_bounds d g →
       new_Level d h = Throw (GoalOutOfBounds (px g) (py g)))
  ∧ (¬ goal_out_of_bounds d g →
       ∃ L, new_Level d h = Return L
            ∧ h_goals h !! goal L = Some g
            ∧ 0 ≤ px g < width L ∧ 0 ≤ py g < height L).
Proof.
  intros (Hw & Hh & (m & Hm & Hlen & Hrows) & _) Hg.
  assert (Hout : goal_out_of_bounds d g →
                 new_Level d h = Throw (GoalOutOfBounds (px g) (py g))).
  { intros Hoob. unfold new_Level. rewrite Hg.
    destruct (_ || _) eqn:Hb; [done|]. unfold goal_out_of_bounds in Hoob.
    apply orb_false_elim in Hb as [Hb Hb4]. apply orb_false_elim in Hb as [Hb Hb3].
    apply orb_false_elim in Hb as [Hb1 Hb2]. lia. }
  assert (Hin : ¬ goal_out_of_bounds d g →
                ∃ L, new_Level d h = Return L
                     ∧ h_goals h !! goal L = Some g
                     ∧ 0 ≤ px g < width L ∧ 0 ≤ py g < height L).
  { intros Hnot. unfold goal_out_of_bounds in Hnot. unfold new_Level. rewrite Hg.
    destruct (_ || _) eqn:Hb.
    { exfalso. apply Hnot. repeat (apply orb_prop in Hb as [Hb|Hb]); lia. }
    destruct (fill_grid_cases (Z.to_nat (d_height d)) 0 (d_width d)
                (list_to_set (d_collision d)) (h_tiles h !! d_tiles d) [])
      as [[_ Hgrid]|[Hmiss _]]; [lia|done| |].
    - unfold new_Array. simpl in Hgrid. rewrite Hgrid.
      eexists. split; [done|]. cbn [goal width height]. split; [done|lia].
    - exfalso. apply Hmiss. apply Forall_forall. intros j Hj.
      apply elem_of_seq in Hj. rewrite Hm. simpl.
      apply lookup_lt_is_Some. lia. }
  split; [|done]. split.
  - intros [e He].
    destruct (decide (goal_out_of_bounds d g)) as [|Hnot]; [done|].
    destruct (Hin Hnot) as (L & HL & _). congruence.
  - intros Hoob. eexists. by apply Hout.
Qed.

Lemma new_Level_fails_iff_goal_out_of_bounds_witness :
  ((∃ e, new_Level valid_document valid_heap = Throw e)
   ↔ goal_out_of_bounds valid_document {| px := 3; py := 2 |})
  ∧ (goal_out_of_bounds valid_document {| px := 3; py := 2 |} →
       new_Level valid_document valid_heap = Throw (GoalOutOfBounds 3 2))
  ∧ (¬ goal_out_of_bounds valid_document {| px := 3; py := 2 |} →
       ∃ L, new_Level valid_document valid_heap = Return L
            ∧ h_goals valid_heap !! goal L = Some {| px := 3; py := 2 |}
            ∧ 0 ≤ 3 < width L ∧ 0 ≤ 2 < height L).
Proof.
  apply (new_Level_fails_iff_goal_out_of_bounds valid_document valid_heap
           {| px := 3; py := 2 |}).
  - split; [simpl; lia|]. split; [simpl; lia|]. split.
    + eexists. split; [reflexivity|]. split; [reflexivity|].
      repeat constructor.
    + eexists. reflexivity.
  - reflexivity.
Defined.

Lemma index_int z : 0 ≤ z → index (int z) = Some (Z.to_nat z).
Proof.
  intros Hz. unfold index, int.
  change (Qfloor (Qc_of_Z z)) with (Qfloor (inject_Z z)). rewrite Qfloor_Z.
  rewrite bool_decide_eq_true_2 by done.
  by rewrite (proj2 (Z.leb_le 0 z) Hz).
Qed.

Lemma guard_false_within a n :
  a ≠ NaN →
  ltb a (int 0) || geb a (int n) = false → within a n.
Proof.
  intros Hnan Hb. apply orb_false_elim in Hb as [Hlt Hge].
  destruct a as [| | |q]; try done.
  unfold ltb, geb, leb, int in *.
  apply bool_decide_eq_false in Hlt, Hge.
  exists q. split; [done|]. rewrite Z2Qc_inj_0 in Hlt. split.
  - by apply Qcnot_lt_le.
  - by apply Qcnot_le_lt.
Qed.

(** C3, as the code has it.  On a constructed [Level], [isSolid(x, y)]
    returns [false] without throwing for every pair of numbers, neither of
    them NaN, outside [[0, width) x [0, height)], and returns the stored
    [collisionGrid[y][x]] for in-bounds integer coordinates. *)
Theorem isSolid_out_of_bounds_false_in_bounds_grid
    (d : Document) (h h' : heap) (L : Level) :
  new_Level d h = Return L →
  (∀ x y : num, x ≠ NaN → y ≠ NaN →
     ¬ (within x (width L) ∧ within y (height L)) →
     isSolid x y (State h' L) = (Return (VBool false), State h' L))
  ∧ (∀ tx ty : Z, 0 ≤ tx < width L → 0 ≤ ty < height L →
       ∃ row b,
         collisionGrid L !! Z.to_nat ty = Some (Some row)
         ∧ row !! Z.to_nat tx = Some (Some b)
         ∧ isSolid (int tx) (int ty) (State h' L)
           = (Return (VBool b), State h' L)).
Proof.
  intros Hnew. split.
  - intros x y Hx Hy Hout. unfold isSolid. cbn [this].
    destruct (ltb x (int 0) || geb x (int (width L))) eqn:Gx.
    + apply orb_prop in Gx as [-> | ->]; by rewrite ?orb_true_r.
    + destruct (ltb y (int 0) || geb y (int (height L))) eqn:Gy.
      * apply orb_prop in Gy as [-> | ->]; by rewrite ?orb_true_r.
      * exfalso. apply Hout. split; by apply guard_false_within.
  - intros tx ty Htx Hty.
    destruct (new_Level_cell d h L tx ty Hnew Htx Hty)
      as (row & b & Hrow & Hcell).
    exists row, b. split; [done|]. split; [done|].
    unfold isSolid. cbn [this].
    rewrite !ltb_int. unfold geb. rewrite !leb_int.
    rewrite !bool_decide_eq_false_2 by lia. cbn [orb].
    unfold array_get. rewrite !index_int by lia. simpl.
    rewrite Hrow. simpl. by rewrite Hcell.
Qed.

Lemma isSolid_out_of_bounds_false_in_bounds_grid_witness :
  (∀ x y : num, x ≠ NaN → y ≠ NaN →
     ¬ (within x (width valid_level) ∧ within y (height valid_level)) →
     isSolid x y (State valid_heap valid_level)
     = (Return (VBool false), State valid_heap valid_level))
  ∧ (∀ tx ty : Z, 0 ≤ tx < width valid_level → 0 ≤ ty < height valid_level →
       ∃ row b,
         collisionGrid valid_level !! Z.to_nat ty = Some (Some row)
         ∧ row !! Z.to_nat tx = Some (Some b)
         ∧ isSolid (int tx) (int ty) (State valid_heap valid_level)
           = (Return (VBool b), State valid_heap valid_level)).
Proof.
  apply (isSolid_out_of_bounds_false_in_bounds_grid
           valid_document valid_heap valid_heap valid_level).
  vm_compute. reflexivity.
Defined.

(** C3, as stated, fails: NaN is a number outside [[0, height)], yet
    [isSolid(0, NaN)] on the level of the loader tests throws a TypeError:
    no comparison of the bounds guard is true of NaN, and
    [collisionGrid[NaN]] is [undefined]. *)
Lemma isSolid_nan_row_throws :
  new_Level valid_document valid_heap = Return valid_level
  ∧ ¬ within NaN (height valid_level)
  ∧ isSolid (int 0) NaN (State valid_heap valid_level)
    = (Throw TypeError, State valid_heap valid_level)
  ∧ ¬ outside_returns_false (State valid_heap valid_level) (int 0) NaN.
Proof.
  assert (Hout : ¬ within NaN (height valid_level)).
  { by intros (q & [=] & _). }
  assert (Hrun : isSolid (int 0) NaN (State valid_heap valid_level)
                 = (Throw TypeError, State valid_heap valid_level))
    by (vm_compute; reflexivity).
  split; [vm_compute; reflexivity|]. split; [done|]. split; [done|].
  intros Hclaim. rewrite Hclaim in Hrun; [discriminate|].
  by intros [_ ?].
Qed.

(** ** The goal *)

Section Goal.

Lemma goalRect_of_int g :
  goalRect_of g
  = {| x := int (px g * TILE_SIZE); y := int (py g * TILE_SIZE);
       rwidth := int TILE_SIZE; rheight := int TILE_SIZE |}.
Proof. unfold goalRect_of. by rewrite !mul_int. Qed.

(** The overlap test on a finite rectangle, as four strict inequalities. *)
Lemma overlap_fin g x y w h :
  overlap_of (fin_rect x y w h) (goalRect_of g) = true
  ↔ (x < Qc_of_Z (px g * TILE_SIZE + TILE_SIZE))%Qc
    ∧ (Qc_of_Z (px g * TILE_SIZE) < x + w)%Qc
    ∧ (y < Qc_of_Z (py g * TILE_SIZE + TILE_SIZE))%Qc
    ∧ (Qc_of_Z (py g * TILE_SIZE) < y + h)%Qc.
Proof.
  rewrite goalRect_of_int. unfold overlap_of, fin_rect.
  cbn [Level.x Level.y rwidth rheight]. rewrite !add_int.
  unfold gtb, ltb, add, int.
  rewrite !andb_true_iff, !bool_decide_eq_true. tauto.
Qed.

Lemma Qclt_le_ne (a b : Qc) : (a < b)%Qc ↔ (a ≤ b)%Qc ∧ b ≠ a.
Proof.
  split.
  - intros H. split; [by apply Qclt_le_weak|].
    intros ->. by apply (Qclt_not_eq _ _ H).
  - intros [Hle Hne]. apply Qcnot_le_lt. intros Hge. apply Hne.
    by apply Qcle_antisym.
Qed.

(** The same for the rounded sums [r] and [b] of [Level64.overlap_of]. *)
Lemma goalRect64_of_int g :
  goal_edges_exact g →
  Level64.goalRect_of g
  = {| x := int (px g * TILE_SIZE); y := int (py g * TILE_SIZE);
       rwidth := int TILE_SIZE; rheight := int TILE_SIZE |}.
Proof.
  intros [Hx Hy]. unfold Level64.goalRect_of, TILE_SIZE in *.
  by rewrite !mul64_int by lia.
Qed.

Lemma overlap64_fin g x y w h r b :
  goal_edges_exact g →
  F64.add (Fin x) (Fin w) = Fin r → F64.add (Fin y) (Fin h) = Fin b →
  Level64.overlap_of (fin_rect x y w h) (Level64.goalRect_of g) = true
  ↔ (x < Qc_of_Z (px g * TILE_SIZE + TILE_SIZE))%Qc
    ∧ (Qc_of_Z (px g * TILE_SIZE) < r)%Qc
    ∧ (y < Qc_of_Z (py g * TILE_SIZE + TILE_SIZE))%Qc
    ∧ (Qc_of_Z (py g * TILE_SIZE) < b)%Qc.
Proof.
  intros Hg Hr Hb. rewrite (goalRect64_of_int g Hg).
  unfold Level64.overlap_of, fin_rect.
  cbn [Level.x Level.y rwidth rheight]. rewrite Hr, Hb.
  destruct Hg as [Hx Hy]. unfold TILE_SIZE in *.
  rewrite !add64_int by lia.
  unfold gtb, ltb, int.
  rewrite !andb_true_iff, !bool_decide_eq_true. tauto.
Qed.

Lemma overlap64_iff_between_not_flush g x y w h r b :
  goal_edges_exact g →
  F64.add (Fin x) (Fin w) = Fin r → F64.add (Fin y) (Fin h) = Fin b →
  Level64.overlap_of (fin_rect x y w h) (Level64.goalRect_of g) = true
  ↔ goal_between g x r y b
    ∧ r ≠ Qc_of_Z (px g * TILE_SIZE)
    ∧ b ≠ Qc_of_Z (py g * TILE_SIZE).
Proof.
  intros Hg Hr Hb. rewrite (overlap64_fin g x y w h r b Hg Hr Hb).
  unfold goal_between.
  rewrite !tile_index_le, !tile_index_ge.
  rewrite (Qclt_le_ne _ r), (Qclt_le_ne _ b). tauto.
Qed.

Lemma checkGoal64_result r st g :
  h_goals (st_heap st) !! goal (this st) = Some g →
  (Level64.checkGoal r st).1
  = Return (Level64.overlap_of r (Level64.goalRect_of g)).
Proof.
  intros Hg. unfold Level64.checkGoal. rewrite Hg. by destruct (_ && _).
Qed.

Lemma checkGoal_result r st g :
  h_goals (st_heap st) !! goal (this st) = Some g →
  (checkGoal r st).1 = Return (overlap_of r (goalRect_of g)).
Proof. intros Hg. unfold checkGoal. rewrite Hg. by destruct (_ && _). Qed.

Lemma checkGoal_no_overlap r st g :
  h_goals (st_heap st) !! goal (this st) = Some g →
  overlap_of r (goalRect_of g) = false →
  checkGoal r st = (Return false, st).
Proof. intros Hg Ho. unfold checkGoal. by rewrite Hg, Ho. Qed.

End Goal.

(** C5, as the code has it.  Take a rectangle with finite fields whose
    right edge [r = x + width] and bottom edge [b = y + height], the sums as
    binary64 rounds them, are finite, and a goal whose world-space edges
    are below [2^53].  Then [checkGoal] returns [true] exactly when the goal
    tile index lies in the inclusive floored range
    [[floor(x/32), floor(r/32)] x [floor(y/32), floor(b/32)]] and, in
    addition, neither [r] equals the goal tile's left edge nor [b] its top
    edge. *)
Theorem checkGoal_true_iff_in_range_and_not_flush
    (st : state) (g : Point) (x y w h r b : Qc) :
  h_goals (st_heap st) !! goal (this st) = Some g →
  goal_edges_exact g →
  F64.add (Fin x) (Fin w) = Fin r → F64.add (Fin y) (Fin h) = Fin b →
  ∃ c : bool,
    (Level64.checkGoal (fin_rect x y w h) st).1 = Return c
    ∧ (c = true ↔
       goal_between g x r y b
       ∧ r ≠ Qc_of_Z (px g * TILE_SIZE)
       ∧ b ≠ Qc_of_Z (py g * TILE_SIZE)).
Proof.
  intros Hg Hsafe Hr Hb.
  eexists. split; [by apply checkGoal64_result|].
  by apply overlap64_iff_between_not_flush.
Qed.

Lemma checkGoal_true_iff_in_range_and_not_flush_witness :
  let q := Qc_of_Z in
  let g := {| px := 3; py := 2 |} in
  ∃ c : bool,
    (Level64.checkGoal (fin_rect (q 70) (q 64) (q 32) (q 32))
       (State valid_heap valid_level)).1 = Return c
    ∧ (c = true ↔
       goal_between g (q 70) (q 102) (q 64) (q 96)
       ∧ q 102 ≠ Qc_of_Z (px g * TILE_SIZE)
       ∧ q 96 ≠ Qc_of_Z (py g * TILE_SIZE)).
Proof.
  intros q g.
  apply (checkGoal_true_iff_in_range_and_not_flush
           (State valid_heap valid_level) g
           (q 70) (q 64) (q 32) (q 32) (q 102) (q 96)).
  - reflexivity.
  - split; reflexivity.
  - apply num_fin_eq. vm_compute. reflexivity.
  - apply num_fin_eq. vm_compute. reflexivity.
Defined.

(** C5, as stated, fails in two ways.  The rectangle [(64, 64, 32, 32)]
    ends exactly at the left edge of the goal tile [(3, 2)]; the goal lies
    in its floored tile range, yet [checkGoal] returns [false].  The
    rectangle [(95.5, 70, 0.5 + 2^-53, 32)] reaches past that edge, and the
    goal lies in its floored tile range; but its right edge as binary64
    computes it is 96, the edge itself, and [checkGoal] returns [false]. *)
Lemma checkGoal_flush_left_of_goal :
  new_Level valid_document valid_heap = Return valid_level
  ∧ ¬ checkGoal_agrees_with_tile_range (State valid_heap valid_level)
        {| px := 3; py := 2 |}
        (Qc_of_Z 64) (Qc_of_Z 64) (Qc_of_Z 32) (Qc_of_Z 32)
  ∧ ¬ checkGoal_agrees_with_tile_range (State valid_heap valid_level)
        {| px := 3; py := 2 |}
        (Q2Qc (191 # 2)) (Qc_of_Z 70) just_over_half (Qc_of_Z 32).
Proof.
  split; [vm_compute; reflexivity|]. split.
  - intros [_ Hrange].
    assert (Hin : goal_in_tile_range {| px := 3; py := 2 |}
                    (Qc_of_Z 64) (Qc_of_Z 64) (Qc_of_Z 32) (Qc_of_Z 32)).
    { unfold goal_in_tile_range.
      replace (tile_index (Qc_of_Z 64)) with 2 by (vm_compute; reflexivity).
      replace (tile_index (Qc_of_Z 64 + Qc_of_Z 32)) with 3
        by (vm_compute; reflexivity).
      simpl. lia. }
    specialize (Hrange Hin). vm_compute in Hrange. discriminate.
  - intros [_ Hrange].
    assert (Hin : goal_in_tile_range {| px := 3; py := 2 |}
                    (Q2Qc (191 # 2)) (Qc_of_Z 70) just_over_half (Qc_of_Z 32)).
    { unfold goal_in_tile_range.
      replace (tile_index (Q2Qc (191 # 2))) with 2
        by (vm_compute; reflexivity).
      replace (tile_index (Q2Qc (191 # 2) + just_over_half)) with 3
        by (vm_compute; reflexivity).
      replace (tile_index (Qc_of_Z 70)) with 2 by (vm_compute; reflexivity).
      replace (tile_index (Qc_of_Z 70 + Qc_of_Z 32)) with 3
        by (vm_compute; reflexivity).
      simpl. lia. }
    specialize (Hrange Hin). vm_compute in Hrange. discriminate.
Qed.

(** C10.  A rectangle (of positive width and height, or any other finite
    size) in contact with an edge of the goal tile's world-space rectangle ([x + width] at its left edge,
    [y + height] at its top edge, [x] at its right edge or [y] at its bottom
    edge) makes [checkGoal] return [false] and leave the level as it was:
    [goalReached] is not set and nothing is emitted. *)
Theorem checkGoal_edge_contact_returns_false
    (st : state) (g : Point) (x y w h : Qc) :
  h_goals (st_heap st) !! goal (this st) = Some g →
  on_goal_edge g x y w h →
  checkGoal (fin_rect x y w h) st = (Return false, st).
Proof.
  intros Hg Hedge. apply (checkGoal_no_overlap _ _ g Hg).
  apply not_true_is_false. rewrite overlap_fin.
  intros (Hx1 & Hx2 & Hy1 & Hy2). unfold on_goal_edge in Hedge.
  replace ((px g + 1) * TILE_SIZE) with (px g * TILE_SIZE + TILE_SIZE)
    in Hedge by lia.
  replace ((py g + 1) * TILE_SIZE) with (py g * TILE_SIZE + TILE_SIZE)
    in Hedge by lia.
  destruct Hedge as [E|[E|[E|E]]].
  - rewrite E in Hx2. exact (Qclt_not_eq _ _ Hx2 eq_refl).
  - rewrite E in Hy2. exact (Qclt_not_eq _ _ Hy2 eq_refl).
  - rewrite E in Hx1. exact (Qclt_not_eq _ _ Hx1 eq_refl).
  - rewrite E in Hy1. exact (Qclt_not_eq _ _ Hy1 eq_refl).
Qed.

Lemma checkGoal_edge_contact_returns_false_witness :
  checkGoal (fin_rect (Qc_of_Z 64) (Qc_of_Z 64) (Qc_of_Z 32) (Qc_of_Z 32))
    (State valid_heap valid_level)
  = (Return false, State valid_heap valid_level).
Proof.
  apply (checkGoal_edge_contact_returns_false
           (State valid_heap valid_level) {| px := 3; py := 2 |}).
  - reflexivity.
  - left. apply Qc_is_canon. reflexivity.
Defined.

Section Once.
Context (d : Document) (h : heap) (L : Level) (g : Point).
Context (rects : nat → Rect).
Hypothesis Hnew : new_Level d h = Return L.
Hypothesis Hgoal : h_goals h !! goal L = Some g.

Lemma reached_before_S n :
  reached_before g rects (S n)
  = reached_before g rects n || overlap_of (rects n) (goalRect_of g).
Proof.
  unfold reached_before. rewrite seq_S, existsb_app. simpl.
  by rewrite orb_false_r.
Qed.

Lemma reached_before_true n :
  reached_before g rects n = true
  ↔ ∃ j, (j < n)%nat ∧ overlap_of (rects j) (goalRect_of g) = true.
Proof.
  unfold reached_before. rewrite existsb_exists. split.
  - intros (j & Hin & Ho). exists j. split; [|done].
    apply in_seq in Hin. lia.
  - intros (j & Hj & Ho). exists j. split; [|done]. apply in_seq. lia.
Qed.

Lemma level_after_fresh : level_after L false = L.
Proof.
  destruct (new_Level_Return d h L Hnew) as (? & ? & _ & _ & _ & _ & _ & ->).
  done.
Qed.

Lemma checkGoal_level_after r reached :
  checkGoal r (State h (level_after L reached))
  = (Return (overlap_of r (goalRect_of g)),
     State h (level_after L (reached || overlap_of r (goalRect_of g)))).
Proof.
  unfold checkGoal. cbn [this st_heap level_after goal]. rewrite Hgoal.
  cbn [_goalReached].
  destruct reached, (overlap_of r (goalRect_of g)); done.
Qed.

Lemma after_calls_state n :
  after_calls rects n (State h L)
  = State h (level_after L (reached_before g rects n)).
Proof.
  induction n as [|n IH].
  - change (reached_before g rects 0) with false.
    by rewrite level_after_fresh.
  - cbn [after_calls]. rewrite IH, checkGoal_level_after.
    by rewrite reached_before_S.
Qed.
End Once.




(** ** Aliasing with the document *)

(** C9, as the code has it.  The constructor keeps the document's [tiles]
    and [goal] objects by reference and builds [collisionGrid] afresh.
    After any writes to tile matrices, [isSolid] and [getGoalPosition]
    answer as before, and the tiles read through the instance are whatever
    the document's matrix now holds. *)
Theorem document_tile_writes_show_through_level
    (d : Document) (h h' : heap) (L : Level) :
  new_Level d h = Return L →
  h_goals h' = h_goals h →
  tiles L = d_tiles d ∧ goal L = d_goal d
  ∧ (∀ a b, (isSolid a b (State h' L)).1 = (isSolid a b (State h L)).1)
  ∧ (getGoalPosition (State h' L)).1 = (getGoalPosition (State h L)).1
  ∧ stored_tiles (State h' L) = h_tiles h' !! d_tiles d.
Proof.
  intros Hnew Hgoals.
  destruct (new_Level_Return d h L Hnew) as (g & m & Hg & _ & _ & _ & _ & HL).
  assert (Ht : tiles L = d_tiles d) by (by rewrite HL).
  assert (Hgl : goal L = d_goal d) by (by rewrite HL).
  split; [done|]. split; [done|]. split; [|split].
  - intros a b. unfold isSolid. cbn [this].
    destruct (_ || _); [done|]. by destruct (array_get _ b).
  - unfold getGoalPosition. cbn [this st_heap]. rewrite Hgoals.
    by destruct (h_goals h !! goal L).
  - unfold stored_tiles. cbn [this st_heap]. by rewrite Ht.
Qed.

Lemma document_tile_writes_show_through_level_witness :
  let h' := write_tile valid_document 0 0 1 valid_heap in
  tiles valid_level = d_tiles valid_document
  ∧ goal valid_level = d_goal valid_document
  ∧ (∀ a b, (isSolid a b (State h' valid_level)).1
            = (isSolid a b (State valid_heap valid_level)).1)
  ∧ (getGoalPosition (State h' valid_level)).1
    = (getGoalPosition (State valid_heap valid_level)).1
  ∧ stored_tiles (State h' valid_level) = h_tiles h' !! d_tiles valid_document.
Proof.
  intros h'.
  apply (document_tile_writes_show_through_level
           valid_document valid_heap h' valid_level).
  - vm_compute. reflexivity.
  - reflexivity.
Defined.

(** C9, as stated, fails: after [doc.tiles[0][0] = 1] the tiles stored in
    the level built from [doc] are no longer what they were. *)
Lemma document_tile_write_changes_stored_tiles :
  new_Level valid_document valid_heap = Return valid_level
  ∧ ¬ same_observations
        (State valid_heap valid_level)
        (State (write_tile valid_document 0 0 1 valid_heap) valid_level).
Proof.
  split; [vm_compute; reflexivity|].
  intros (_ & _ & Ht & _). vm_compute in Ht. discriminate.
Qed.

(** * Further properties *)

(** ** A level and its document *)

Lemma has_list_to_set (l : list Z) (o : option Z) :
  has (list_to_set l) o
  = match o with Some id => bool_decide (id ∈ l) | None => false end.
Proof.
  destruct o as [id|]; [|done]. simpl.
  apply bool_decide_ext, elem_of_list_to_set.
Qed.

Lemma new_Level_cell_value (d : Document) (h : heap) (L : Level) (tx ty : Z) :
  new_Level d h = Return L →
  0 ≤ tx < width L → 0 ≤ ty < height L →
  ∃ row, collisionGrid L !! Z.to_nat ty = Some (Some row)
         ∧ row !! Z.to_nat tx
           = Some (Some (has (list_to_set (d_collision d)) (tile_at h d tx ty))).
Proof.
  intros Hnew.
  apply new_Level_Return in Hnew as (g & m & _ & Hm & _ & _ & Hrows & ->).
  cbn [width height collisionGrid]. intros Htx Hty.
  eexists. split.
  - by rewrite lookup_fmap_seq by lia.
  - unfold expected_row. rewrite lookup_fmap_seq by lia.
    unfold tile_at. rewrite Hm. simpl.
    destruct (Hrows (Z.to_nat ty)) as [row ->]; [lia|]. done.
Qed.

Lemma isSolid_int_out (tx ty : Z) (st : state) :
  ¬ (0 ≤ tx < width (this st) ∧ 0 ≤ ty < height (this st)) →
  isSolid (int tx) (int ty) st = (Return (VBool false), st).
Proof.
  intros Hout. unfold isSolid.
  rewrite !ltb_int. unfold geb. rewrite !leb_int.
  destruct (bool_decide (tx < 0)) eqn:E1; [done|].
  destruct (bool_decide (ty < 0)) eqn:E2; [done|].
  destruct (bool_decide (width (this st) ≤ tx)) eqn:E3; [done|].
  destruct (bool_decide (height (this st) ≤ ty)) eqn:E4; [done|].
  apply bool_decide_eq_false in E1, E2, E3, E4. lia.
Qed.

Lemma isSolid_int_in (tx ty : Z) (st : state) row b :
  0 ≤ tx < width (this st) → 0 ≤ ty < height (this st) →
  collisionGrid (this st) !! Z.to_nat ty = Some (Some row) →
  row !! Z.to_nat tx = Some (Some b) →
  isSolid (int tx) (int ty) st = (Return (VBool b), st).
Proof.
  intros Htx Hty Hrow Hcell. unfold isSolid.
  rewrite !ltb_int. unfold geb. rewrite !leb_int.
  rewrite !bool_decide_eq_false_2 by lia. cbn [orb].
  unfold array_get. rewrite !index_int by lia. simpl.
  rewrite Hrow. simpl. by rewrite Hcell.
Qed.

Lemma isSolid_doc_solid (d : Document) (h h' : heap) (L : Level) (tx ty : Z) :
  new_Level d h = Return L →
  isSolid (int tx) (int ty) (State h' L)
  = (Return (VBool (doc_solid h d tx ty)), State h' L).
Proof.
  intros Hnew. unfold doc_solid.
  destruct (new_Level_Return d h L Hnew) as (g & m & _ & _ & _ & _ & _ & HL).
  assert (Hw : width L = d_width d) by (by rewrite HL).
  assert (Hh : height L = d_height d) by (by rewrite HL).
  case_bool_decide as Hin.
  - destruct (new_Level_cell_value d h L tx ty Hnew) as (row & Hrow & Hcell);
      [lia..|].
    rewrite (isSolid_int_in tx ty (State h' L) row _) by (done || simpl; lia).
    by rewrite has_list_to_set.
  - apply isSolid_int_out. simpl. lia.
Qed.

(** X1.  On a level built from a document, [isSolid(x, y)] at integer
    coordinates is [true] exactly when [(x, y)] is within the grid and the
    document's tile ID at that cell is listed in its [collision] array; a
    cell the tile matrix lacks (a short row) is not solid. *)
Theorem isSolid_true_iff_tile_listed_in_collision
    (d : Document) (h h' : heap) (L : Level) (tx ty : Z) :
  new_Level d h = Return L →
  ∃ b : bool,
    isSolid (int tx) (int ty) (State h' L) = (Return (VBool b), State h' L)
    ∧ (b = true ↔
       0 ≤ tx < d_width d ∧ 0 ≤ ty < d_height d
       ∧ ∃ id, tile_at h d tx ty = Some id ∧ id ∈ d_collision d).
Proof.
  intros Hnew. exists (doc_solid h d tx ty).
  split; [by apply isSolid_doc_solid|].
  unfold doc_solid. rewrite andb_true_iff, bool_decide_eq_true.
  destruct (tile_at h d tx ty) as [id|].
  - rewrite bool_decide_eq_true. split.
    + intros [[? ?] ?]. eauto.
    + intros (? & ? & id' & [= <-] & ?). done.
  - split; [intros [_ ?]; done|]. intros (_ & _ & id & ? & _). done.
Qed.

Lemma isSolid_true_iff_tile_listed_in_collision_witness :
  ∃ b : bool,
    isSolid (int 1) (int 0) (State valid_heap valid_level)
    = (Return (VBool b), State valid_heap valid_level)
    ∧ (b = true ↔
       0 ≤ 1 < d_width valid_document ∧ 0 ≤ 0 < d_height valid_document
       ∧ ∃ id, tile_at valid_heap valid_document 1 0 = Some id
               ∧ id ∈ d_collision valid_document).
Proof.
  apply (isSolid_true_iff_tile_listed_in_collision
           valid_document valid_heap valid_heap valid_level 1 0).
  vm_compute. reflexivity.
Defined.

Lemma guard_passes (a : num) (n : Z) :
  a = NaN ∨ within a n → ltb a (int 0) || geb a (int n) = false.
Proof.
  intros [->|(q & -> & H0 & Hn)]; [done|].
  unfold ltb, geb, leb, int. rewrite Z2Qc_inj_0.
  rewrite !bool_decide_eq_false_2; [done|..].
  - by apply Qclt_not_le.
  - by apply Qcle_not_lt.
Qed.

Lemma isSolid_guard_passes (x y : num) (st : state) :
  x = NaN ∨ within x (width (this st)) →
  y = NaN ∨ within y (height (this st)) →
  ltb x (int 0) || ltb y (int 0)
  || geb x (int (width (this st))) || geb y (int (height (this st))) = false.
Proof.
  intros Hx Hy. apply guard_passes in Hx, Hy.
  apply orb_false_elim in Hx as [-> ->], Hy as [-> ->]. done.
Qed.

Lemma index_not_integral (a : num) : ¬ integral a → index a = None.
Proof.
  intros Hni. destruct a as [| | |q]; try done. unfold index.
  case_bool_decide as Heq; [|done].
  exfalso. apply Hni. exists (Qfloor q). unfold int. by rewrite Heq.
Qed.

(** X2.  On a constructed level, [isSolid(x, y)] with coordinates that pass
    the bounds guard but are not integers does not answer with a boolean:
    a [y] that is NaN or a non-integer within [[0, height)] makes it throw a
    TypeError (it reads a property of the missing row [collisionGrid[y]]);
    an in-bounds integer [y] with an [x] that is NaN or a non-integer
    within [[0, width)] makes it return [undefined]. *)
Theorem isSolid_non_integer_coordinates
    (d : Document) (h h' : heap) (L : Level) :
  new_Level d h = Return L →
  (∀ x y : num,
     x = NaN ∨ within x (width L) →
     y = NaN ∨ within y (height L) →
     ¬ integral y →
     isSolid x y (State h' L) = (Throw TypeError, State h' L))
  ∧ (∀ (x : num) (ty : Z),
       x = NaN ∨ within x (width L) →
       ¬ integral x →
       0 ≤ ty < height L →
       isSolid x (int ty) (State h' L) = (Return VUndefined, State h' L)).
Proof.
  intros Hnew. split.
  - intros x y Hx Hy Hni. unfold isSolid.
    rewrite isSolid_guard_passes by done.
    unfold array_get. by rewrite (index_not_integral y Hni).
  - intros x ty Hx Hni Hty. unfold isSolid.
    rewrite isSolid_guard_passes; [|done|].
    + assert (Hw : 0 ≤ 0 < width L).
      { destruct (new_Level_Return d h L Hnew)
          as (g & m & _ & _ & ? & _ & _ & ->).
        simpl. lia. }
      destruct (new_Level_cell d h L 0 ty Hnew Hw Hty) as (row & b & Hrow & _).
      unfold array_get. rewrite index_int by lia. simpl. cbn [this].
      rewrite Hrow. simpl. by rewrite (index_not_integral x Hni).
    + right. exists (Qc_of_Z ty). split; [done|]. cbn [this]. split.
      * rewrite <- Z2Qc_inj_0, <- Z2Qc_inj_le. lia.
      * rewrite <- Z2Qc_inj_lt. lia.
Qed.

Lemma isSolid_non_integer_coordinates_witness :
  (∀ x y : num,
     x = NaN ∨ within x (width valid_level) →
     y = NaN ∨ within y (height valid_level) →
     ¬ integral y →
     isSolid x y (State valid_heap valid_level)
     = (Throw TypeError, State valid_heap valid_level))
  ∧ (∀ (x : num) (ty : Z),
       x = NaN ∨ within x (width valid_level) →
       ¬ integral x →
       0 ≤ ty < height valid_level →
       isSolid x (int ty) (State valid_heap valid_level)
       = (Return VUndefined, State valid_heap valid_level)).
Proof.
  apply (isSolid_non_integer_coordinates
           valid_document valid_heap valid_heap valid_level).
  vm_compute. reflexivity.
Defined.

(** ** [detectCollision] against a [Level] *)

Lemma isSolid_method_doc_solid
    (d : Document) (h h' : heap) (L : Level) (r : jsval) (tx ty : Z) :
  new_Level d h = Return L →
  isSolid_method (int tx) (int ty) (World r (State h' L))
  = (Return (VBool (doc_solid h d tx ty)), World r (State h' L)).
Proof.
  intros Hnew. unfold isSolid_method. cbn [w_level w_rect].
  by rewrite (isSolid_doc_solid d h h' L tx ty Hnew).
Qed.

Lemma detectCollision_level_scan
    (d : Document) (h h' : heap) (L : Level) (r : jsval) (sx ex sy ey : Z) :
  new_Level d h = Return L →
  scanned_range r sx ex sy ey →
  steps_exactly sx ex → steps_exactly sy ey →
  ∃ N : nat, ∀ fuel, (N ≤ fuel)%nat →
    ∃ b : bool,
      detectCollision fuel as_level (World r (State h' L))
      = Some (Return b, World r (State h' L))
      ∧ (b = true ↔
         ∃ tx ty, (sx ≤ tx ≤ ex ∧ sy ≤ ty ≤ ey) ∧ doc_solid h d tx ty = true).
Proof.
  intros Hnew Hrange Hx Hy.
  exists (Datatypes.S (Z.to_nat (ey + 1 - sy) + Z.to_nat (ex + 1 - sx))).
  intros fuel Hfuel. eexists. split.
  - unfold as_level. apply detectCollision_scan; [done..| |lia].
    intros tx ty. eexists. by apply (isSolid_method_doc_solid d h).
  - rewrite any_in_true. split.
    + intros (ty & Hty & Hrow). apply any_in_true in Hrow as (tx & Htx & Hs).
      exists tx, ty. split; [done|].
      unfold solid_at in Hs.
      by rewrite (isSolid_method_doc_solid d h h' L r tx ty Hnew) in Hs.
    + intros (tx & ty & [Htx Hty] & Hs). exists ty. split; [done|].
      apply any_in_true. exists tx. split; [done|].
      unfold solid_at.
      by rewrite (isSolid_method_doc_solid d h h' L r tx ty Hnew).
Qed.

Lemma doc_solid_true (h : heap) (d : Document) (tx ty : Z) :
  doc_solid h d tx ty = true
  ↔ 0 ≤ tx < d_width d ∧ 0 ≤ ty < d_height d
    ∧ ∃ id, tile_at h d tx ty = Some id ∧ id ∈ d_collision d.
Proof.
  unfold doc_solid. rewrite andb_true_iff, bool_decide_eq_true.
  destruct (tile_at h d tx ty) as [id|].
  - rewrite bool_decide_eq_true. split.
    + intros [[? ?] ?]. eauto.
    + intros (? & ? & id' & [= <-] & ?). done.
  - split; [intros [_ ?]; done|]. intros (_ & _ & id & ? & _). done.
Qed.

(** X3.  For a level built from a document and a player rectangle whose
    loop bounds [startX], [endX], [startY], [endY] (as the code computes
    them) the counters can step through exactly, [detectCollision] returns,
    leaves everything unchanged, and returns [true] exactly when one of the
    tiles of [[startX, endX] x [startY, endY]] lies within the grid and has
    a tile ID that the document lists in [collision]. *)
Theorem detectCollision_level_true_iff_listed_tile_in_range
    (d : Document) (h h' : heap) (L : Level) (r : jsval) (sx ex sy ey : Z) :
  new_Level d h = Return L →
  scanned_range r sx ex sy ey →
  steps_exactly sx ex → steps_exactly sy ey →
  ∃ N : nat, ∀ fuel, (N ≤ fuel)%nat →
    ∃ b : bool,
      detectCollision fuel as_level (World r (State h' L))
      = Some (Return b, World r (State h' L))
      ∧ (b = true ↔
         ∃ tx ty id,
           (sx ≤ tx ≤ ex ∧ sy ≤ ty ≤ ey)
           ∧ 0 ≤ tx < d_width d ∧ 0 ≤ ty < d_height d
           ∧ tile_at h d tx ty = Some id ∧ id ∈ d_collision d).
Proof.
  intros Hnew Hrange Hx Hy.
  destruct (detectCollision_level_scan d h h' L r sx ex sy ey Hnew Hrange Hx Hy)
    as [N HN].
  exists N. intros fuel Hfuel. destruct (HN fuel Hfuel) as (b & Hrun & Hb).
  exists b. split; [done|]. rewrite Hb. split.
  - intros (tx & ty & Hr & Hs).
    apply doc_solid_true in Hs as (? & ? & id & ? & ?).
    by exists tx, ty, id.
  - intros (tx & ty & id & Hr & ? & ? & ? & ?). exists tx, ty.
    split; [done|]. apply doc_solid_true. eauto.
Qed.

Lemma detectCollision_level_true_iff_listed_tile_in_range_witness :
  let r := rect_object (int_rect 48 48 32 32) in
  ∃ N : nat, ∀ fuel, (N ≤ fuel)%nat →
    ∃ b : bool,
      detectCollision fuel as_level (World r (State valid_heap valid_level))
      = Some (Return b, World r (State valid_heap valid_level))
      ∧ (b = true ↔
         ∃ tx ty id,
           (1 ≤ tx ≤ 2 ∧ 1 ≤ ty ≤ 2)
           ∧ 0 ≤ tx < d_width valid_document ∧ 0 ≤ ty < d_height valid_document
           ∧ tile_at valid_heap valid_document tx ty = Some id
           ∧ id ∈ d_collision valid_document).
Proof.
  intros r.
  apply (detectCollision_level_true_iff_listed_tile_in_range
           valid_document valid_heap valid_heap valid_level r 1 2 1 2).
  - vm_compute. reflexivity.
  - exists (int 48), (int 48), (int 32), (int 32).
    split; [repeat split; reflexivity|].
    repeat split; vm_compute; reflexivity.
  - unfold steps_exactly. lia.
  - unfold steps_exactly. lia.
Defined.

(** The loop bounds of a rectangle whose fields are safe integers, with
    safe sums: nothing is rounded, and the bounds are the floored
    quotients. *)
Lemma scanned_range_int (r : jsval) (x y wd ht : Z) :
  number_rect r (int x) (int y) (int wd) (int ht) →
  safe_integer x → safe_integer y →
  safe_integer (x + wd) → safe_integer (y + ht) →
  scanned_range r (x / TILE_SIZE) ((x + wd) / TILE_SIZE)
    (y / TILE_SIZE) ((y + ht) / TILE_SIZE).
Proof.
  intros Hrect Hx Hy Hxw Hyh. unfold safe_integer in *.
  exists (int x), (int y), (int wd), (int ht). split; [done|].
  rewrite !add64_int by done. by rewrite !floor_div64_int by done.
Qed.

Lemma steps_exactly_div (a b : Z) :
  safe_integer a → safe_integer b →
  steps_exactly (a / TILE_SIZE) (b / TILE_SIZE).
Proof.
  unfold safe_integer, steps_exactly, TILE_SIZE. intros Ha Hb.
  pose proof (Z.div_mod a 32). pose proof (Z.mod_pos_bound a 32).
  pose proof (Z.div_mod b 32). pose proof (Z.mod_pos_bound b 32).
  lia.
Qed.

(** X4.  A player rectangle in whole pixels (safe integers, with safe
    sums) that lies wholly outside the map (to the left of it, above it, or
    starting at or beyond its right or bottom edge) never collides with a
    constructed level. *)
Theorem detectCollision_outside_map_is_false
    (d : Document) (h h' : heap) (L : Level) (r : jsval) (x y wd ht : Z) :
  new_Level d h = Return L →
  number_rect r (int x) (int y) (int wd) (int ht) →
  safe_integer x → safe_integer y →
  safe_integer (x + wd) → safe_integer (y + ht) →
  x + wd < 0 ∨ d_width d * TILE_SIZE ≤ x
  ∨ y + ht < 0 ∨ d_height d * TILE_SIZE ≤ y →
  ∃ N : nat, ∀ fuel, (N ≤ fuel)%nat →
    detectCollision fuel as_level (World r (State h' L))
    = Some (Return false, World r (State h' L)).
Proof.
  intros Hnew Hrect Hx Hy Hxw Hyh Hout.
  destruct (detectCollision_level_scan d h h' L r _ _ _ _ Hnew
              (scanned_range_int r x y wd ht Hrect Hx Hy Hxw Hyh)
              (steps_exactly_div _ _ Hx Hxw) (steps_exactly_div _ _ Hy Hyh))
    as [N HN].
  exists N. intros fuel Hfuel. destruct (HN fuel Hfuel) as (b & Hrun & Hb).
  destruct b; [|done]. exfalso.
  destruct Hb as [Hb _]. destruct (Hb eq_refl) as (tx & ty & [Htx Hty] & Hs).
  apply doc_solid_true in Hs as (Hgx & Hgy & _).
  unfold TILE_SIZE in *.
  pose proof (Z.div_mod x 32). pose proof (Z.mod_pos_bound x 32).
  pose proof (Z.div_mod y 32). pose proof (Z.mod_pos_bound y 32).
  pose proof (Z.div_mod (x + wd) 32). pose proof (Z.mod_pos_bound (x + wd) 32).
  pose proof (Z.div_mod (y + ht) 32). pose proof (Z.mod_pos_bound (y + ht) 32).
  lia.
Qed.

Lemma detectCollision_outside_map_is_false_witness :
  let r := rect_object (int_rect (-100) (-100) 32 32) in
  ∃ N : nat, ∀ fuel, (N ≤ fuel)%nat →
    detectCollision fuel as_level (World r (State valid_heap valid_level))
    = Some (Return false, World r (State valid_heap valid_level)).
Proof.
  intros r.
  apply (detectCollision_outside_map_is_false
           valid_document valid_heap valid_heap valid_level r
           (-100) (-100) 32 32).
  - vm_compute. reflexivity.
  - repeat split; reflexivity.
  - unfold safe_integer. simpl. lia.
  - unfold safe_integer. simpl. lia.
  - unfold safe_integer. simpl. lia.
  - unfold safe_integer. simpl. lia.
  - left. lia.
Defined.

(** ** Degenerate rectangles *)

Section EmptyScan.
Context {S : Type} (f : method S).

Lemma scan_rows_no_columns fuel sx ex ty ey w :
  leb sx ex = false →
  steps_exactly ty ey →
  (Z.to_nat (ey + 1 - ty) + 1 < fuel)%nat →
  scan_rows fuel f sx ex (int ty) (int ey) w = Some (Return false, w).
Proof.
  intros Hcols. revert ty. induction fuel as [|fuel IH]; intros ty Hy Hf; [lia|].
  cbn [scan_rows]. rewrite leb_int. case_bool_decide as Hle; [|done].
  destruct fuel as [|fuel]; [lia|].
  cbn [scan_row]. rewrite Hcols.
  unfold steps_exactly in Hy. rewrite succ64_int by lia.
  apply IH; [unfold steps_exactly|]; lia.
Qed.

Lemma scan_rows_no_rows fuel sx ex sy ey w :
  leb sy ey = false →
  scan_rows (Datatypes.S fuel) f sx ex sy ey w = Some (Return false, w).
Proof. intros Hrows. cbn [scan_rows]. by rewrite Hrows. Qed.

End EmptyScan.

(** X5.  When the range of tiles the code computes for a rectangle is empty
    in either direction (no rows, [endY < startY]; or no columns,
    [endX < startX], as for a width of -32 or less, with rows the counter
    can step through), [detectCollision] returns [false] whatever [isSolid]
    would do: no result of [isSolid] is used. *)
Theorem detectCollision_empty_range_is_false
    {S : Type} (f : method S) (w : world S) (sx ex sy ey : Z) :
  scanned_range (w_rect w) sx ex sy ey →
  ey < sy ∨ (ex < sx ∧ steps_exactly sy ey) →
  ∃ N : nat, ∀ fuel, (N ≤ fuel)%nat →
    detectCollision fuel (LObject (PFunction f)) w = Some (Return false, w).
Proof.
  intros Hrange Hempty.
  exists (Z.to_nat (ey + 1 - sy) + 2)%nat.
  intros fuel Hfuel.
  rewrite (detectCollision_scanned f fuel w sx ex sy ey Hrange).
  destruct Hempty as [Hy|[Hx Hy]].
  - destruct fuel as [|fuel]; [lia|]. apply scan_rows_no_rows.
    rewrite leb_int. apply bool_decide_eq_false_2. lia.
  - apply scan_rows_no_columns; [|done|lia].
    rewrite leb_int. apply bool_decide_eq_false_2. lia.
Qed.

Lemma detectCollision_empty_range_is_false_witness :
  let w := World (rect_object (int_rect 64 64 (-40) 32)) () in
  ∃ N : nat, ∀ fuel, (N ≤ fuel)%nat →
    detectCollision fuel mockLevel w = Some (Return false, w).
Proof.
  intros w.
  apply (detectCollision_empty_range_is_false mock_isSolid w 2 0 2 3).
  - exists (int 64), (int 64), (int (-40)), (int 32).
    split; [repeat split; reflexivity|].
    repeat split; vm_compute; reflexivity.
  - right. unfold steps_exactly. lia.
Defined.

Lemma leb_NaN_r a : leb a NaN = false.
Proof. by destruct a. Qed.

Lemma add_NaN_r a : add a NaN = NaN.
Proof. by destruct a. Qed.

Lemma add64_NaN_r a : F64.add a NaN = NaN.
Proof. by destruct a. Qed.

(** X6.  A player rectangle with a NaN among its four numbers never
    collides.  If [y] or [height] is NaN the call returns [false] at once;
    if [x] or [width] is NaN and the row bounds [startY], [endY] are
    integers the counter can step through, it returns [false] after walking
    the rows.  [isSolid] is not consulted. *)
Theorem detectCollision_nan_field_is_false
    {S : Type} (f : method S) (w : world S) (x y wd ht : num) :
  number_rect (w_rect w) x y wd ht →
  (y = NaN ∨ ht = NaN →
     ∀ fuel, (1 ≤ fuel)%nat →
       detectCollision fuel (LObject (PFunction f)) w = Some (Return false, w))
  ∧ (x = NaN ∨ wd = NaN →
     ∀ sy ey,
       floor (F64.div y (int TILE_SIZE)) = int sy →
       floor (F64.div (F64.add y ht) (int TILE_SIZE)) = int ey →
       steps_exactly sy ey →
       ∃ N : nat, ∀ fuel, (N ≤ fuel)%nat →
         detectCollision fuel (LObject (PFunction f)) w
         = Some (Return false, w)).
Proof.
  intros Hrect. split.
  - intros Hnan fuel Hfuel.
    rewrite (detectCollision_numbers f fuel w x y wd ht Hrect).
    destruct fuel as [|fuel]; [lia|]. apply scan_rows_no_rows.
    destruct Hnan as [-> | ->]; [done|].
    rewrite add64_NaN_r. apply leb_NaN_r.
  - intros Hnan sy ey Hsy Hey Hsteps.
    exists (Z.to_nat (ey + 1 - sy) + 2)%nat.
    intros fuel Hfuel.
    rewrite (detectCollision_numbers f fuel w x y wd ht Hrect).
    rewrite Hsy, Hey.
    apply scan_rows_no_columns; [|done|lia].
    destruct Hnan as [-> | ->]; [done|].
    rewrite add64_NaN_r. apply leb_NaN_r.
Qed.

Lemma detectCollision_nan_field_is_false_witness :
  let w := World nan_rect () in
  (int 0 = NaN ∨ int 32 = NaN →
     ∀ fuel, (1 ≤ fuel)%nat →
       detectCollision fuel mockLevel w = Some (Return false, w))
  ∧ (NaN = NaN ∨ int 32 = NaN →
     ∀ sy ey,
       floor (F64.div (int 0) (int TILE_SIZE)) = int sy →
       floor (F64.div (F64.add (int 0) (int 32)) (int TILE_SIZE)) = int ey →
       steps_exactly sy ey →
       ∃ N : nat, ∀ fuel, (N ≤ fuel)%nat →
         detectCollision fuel mockLevel w = Some (Return false, w)).
Proof.
  intros w.
  apply (detectCollision_nan_field_is_false mock_isSolid w
           NaN (int 0) (int 32) (int 32)).
  repeat split; reflexivity.
Defined.

(** X7.  The two argument checks are made in order and before anything
    else: a rectangle that fails its check gives the player-rectangle error
    even when the level is unusable too; a rectangle that passes with a
    level that is falsy or lacks a callable [isSolid] gives the level
    error.  Either way nothing is changed, and no fuel is needed. *)
Theorem detectCollision_argument_errors
    {S : Type} (fuel : nat) (level : level_ref S) (w : world S) :
  (checked_playerRect (w_rect w) = false →
     detectCollision fuel level w = Some (Throw InvalidPlayerRect, w))
  ∧ (checked_playerRect (w_rect w) = true → callable_isSolid level = false →
       detectCollision fuel level w = Some (Throw InvalidLevel, w)).
Proof.
  split.
  - apply detectCollision_unchecked_rect.
  - intros Hchk Hcall.
    destruct (detectCollision_checked_rect fuel level w Hchk)
      as (x & y & wd & ht & ->).
    by destruct level as [|[g|v]].
Qed.

(** ** More on [checkGoal] and [getGoalPosition] *)

Lemma checkGoal_cases (r : Rect) (st : state) :
  (checkGoal r st).2 = st
  ∨ (truthy (_goalReached (this st)) = false
     ∧ (checkGoal r st).1 = Return true
     ∧ (checkGoal r st).2
       = State (st_heap st)
           {| width := width (this st); height := height (this st);
              tiles := tiles (this st);
              collisionTileIds := collisionTileIds (this st);
              goal := goal (this st);
              collisionGrid := collisionGrid (this st);
              _goalReached := VBool true;
              emitted := emitted (this st) ++ ["levelComplete"%string] |}).
Proof.
  unfold checkGoal. destruct (h_goals _ !! _) as [g|]; [|by left].
  destruct (overlap_of r (goalRect_of g)); [|by left].
  destruct (truthy (_goalReached (this st))); [by left|by right].
Qed.

(** X8.  However often [checkGoal] is called and with whatever rectangles,
    it touches nothing but the reached flag and the emitted events: the
    heap, [width], [height], [tiles], [collisionGrid] and [goal] stay as
    they were, so every [isSolid] query answers as before; a set flag stays
    set, and events are only ever appended, at most one in all once the
    flag is set. *)
Theorem checkGoal_calls_leave_collision_data
    (rects : nat → Rect) (n : nat) (st : state) :
  let st' := after_calls rects n st in
  st_heap st' = st_heap st
  ∧ width (this st') = width (this st)
  ∧ height (this st') = height (this st)
  ∧ tiles (this st') = tiles (this st)
  ∧ goal (this st') = goal (this st)
  ∧ collisionGrid (this st') = collisionGrid (this st)
  ∧ (∀ x y, (isSolid x y st').1 = (isSolid x y st).1)
  ∧ (truthy (_goalReached (this st)) = true →
       truthy (_goalReached (this st')) = true
       ∧ emitted (this st') = emitted (this st))
  ∧ (∃ k, (k ≤ 1)%nat
          ∧ emitted (this st')
            = emitted (this st) ++ replicate k "levelComplete"%string).
Proof.
  cbn zeta.
  assert (Hinv : st_heap (after_calls rects n st) = st_heap st
    ∧ width (this (after_calls rects n st)) = width (this st)
    ∧ height (this (after_calls rects n st)) = height (this st)
    ∧ tiles (this (after_calls rects n st)) = tiles (this st)
    ∧ goal (this (after_calls rects n st)) = goal (this st)
    ∧ collisionGrid (this (after_calls rects n st)) = collisionGrid (this st)
    ∧ (truthy (_goalReached (this st)) = true →
         truthy (_goalReached (this (after_calls rects n st))) = true)
    ∧ ∃ k, (k ≤ 1)%nat
        ∧ (k = 1%nat → truthy (_goalReached (this st)) = false
                       ∧ truthy (_goalReached (this (after_calls rects n st)))
                         = true)
        ∧ emitted (this (after_calls rects n st))
          = emitted (this st) ++ replicate k "levelComplete"%string).
  { induction n as [|n IH].
    - do 7 (split; [done|]). exists 0%nat. split; [lia|]. split; [lia|].
      simpl. by rewrite app_nil_r.
    - destruct IH as (H1 & H2 & H3 & H4 & H5 & H6 & H7 & k & Hk & Hk1 & He).
      cbn [after_calls].
      destruct (checkGoal_cases (rects n) (after_calls rects n st))
        as [-> | (Hflag & _ & ->)].
      + do 7 (split; [done|]). by exists k.
      + cbn [st_heap this width height tiles goal collisionGrid
             _goalReached emitted truthy].
        do 7 (split; [done|]).
        destruct k as [|[|k]]; [|destruct (Hk1 eq_refl); congruence|lia].
        exists 1%nat. split; [lia|]. split.
        * intros _. split; [|done].
          destruct (truthy (_goalReached (this st))) eqn:E; [|done].
          rewrite H7 in Hflag; done.
        * rewrite He. simpl. by rewrite app_nil_r. }
  destruct Hinv as (H1 & H2 & H3 & H4 & H5 & H6 & H7 & k & Hk & Hk1 & He).
  do 6 (split; [done|]). split; [|split].
  - intros x y. unfold isSolid. rewrite H2, H3, H6.
    destruct (_ || _); [done|]. by destruct (array_get _ y).
  - intros Hset. split; [by apply H7|]. rewrite He.
    destruct k as [|[|k]]; [by rewrite app_nil_r| |lia].
    destruct (Hk1 eq_refl). congruence.
  - by exists k.
Qed.

(** X9.  A second [checkGoal] call with the same rectangle returns what the
    first returned and changes nothing any more. *)
Theorem checkGoal_twice (r : Rect) (st : state) :
  checkGoal r (checkGoal r st).2 = ((checkGoal r st).1, (checkGoal r st).2).
Proof.
  unfold checkGoal.
  destruct (h_goals (st_heap st) !! goal (this st)) as [g|] eqn:Hg;
    cbn [fst snd]; [|by rewrite Hg].
  destruct (overlap_of r (goalRect_of g)) eqn:Ho;
    destruct (truthy (_goalReached (this st))) eqn:Hf;
    cbn [andb negb fst snd st_heap this goal _goalReached truthy];
    rewrite Hg, Ho, ?Hf; done.
Qed.



(** ** Every outcome of the constructor *)

Lemma rows_present_lookup (h : heap) (d : Document) :
  0 < d_height d →
  rows_present h d
  ↔ Forall (λ j, is_Some (h_tiles h !! d_tiles d ≫= (.!! j)))
      (seq 0 (Z.to_nat (d_height d))).
Proof.
  intros Hpos. unfold rows_present. rewrite Forall_forall. split.
  - intros (m & Hm & Hlen) j Hj. apply elem_of_seq in Hj.
    rewrite Hm. simpl. apply lookup_lt_is_Some. lia.
  - intros Hall. destruct (h_tiles h !! d_tiles d) as [m|] eqn:Hm.
    + exists m. split; [done|].
      destruct (decide (Z.to_nat (d_height d) ≤ length m)%nat) as [|Hlt];
        [done|].
      destruct (Hall (length m)) as [row Hrow].
      * apply elem_of_seq. lia.
      * simpl in Hrow. apply lookup_lt_Some in Hrow. lia.
    + destruct (Hall 0%nat) as [row Hrow]; [apply elem_of_seq; lia|done].
Qed.

Lemma bounds_check (d : Document) (g : Point) :
  (px g <? 0) || (py g <? 0) || (px g >=? d_width d) || (py g >=? d_height d)
  = true ↔ goal_out_of_bounds d g.
Proof.
  unfold goal_out_of_bounds.
  rewrite !orb_true_iff, !Z.ltb_lt, !Z.geb_le. tauto.
Qed.

(** X11.  What [new Level(doc)] does with a document.  A missing [goal]
    gives a TypeError.  A goal outside the grid gives the bounds error,
    whatever the state of [tiles].  For a goal inside the grid and a
    [width] and [height] that are array lengths (below [2^32]): with
    [tiles] missing or shorter than [height] rows the constructor throws a
    TypeError; with at least [height] rows the level is built, however long
    the rows are. *)
Theorem new_Level_outcomes (d : Document) (h : heap) :
  (h_goals h !! d_goal d = None → new_Level d h = Throw TypeError)
  ∧ (∀ g, h_goals h !! d_goal d = Some g →
       (goal_out_of_bounds d g →
          new_Level d h = Throw (GoalOutOfBounds (px g) (py g)))
       ∧ (¬ goal_out_of_bounds d g →
          array_length (d_width d) → array_length (d_height d) →
          ¬ rows_present h d →
            new_Level d h = Throw TypeError)
       ∧ (¬ goal_out_of_bounds d g →
          array_length (d_width d) → array_length (d_height d) →
          rows_present h d →
            ∃ L, new_Level d h = Return L)).
Proof.
  split.
  - intros Hg. unfold new_Level. by rewrite Hg.
  - intros g Hg. unfold new_Level. rewrite Hg.
    pose proof (bounds_check d g) as Hchk.
    destruct (_ || _) eqn:Hb.
    + assert (goal_out_of_bounds d g) by (by apply Hchk).
      split; [done|]. split; intros; done.
    + assert (Hin : ¬ goal_out_of_bounds d g).
      { intros Hoob. apply Hchk in Hoob. discriminate. }
      assert (Hpos : 0 < d_width d ∧ 0 < d_height d).
      { unfold goal_out_of_bounds in Hin. lia. }
      split; [done|].
      pose proof (rows_present_lookup h d (proj2 Hpos)) as Hrows.
      destruct (fill_grid_cases (Z.to_nat (d_height d)) 0 (d_width d)
                  (list_to_set (d_collision d)) (h_tiles h !! d_tiles d) [])
        as [[Hall Hgrid]|[Hmiss Hgrid]]; [lia|done| |];
        unfold new_Array; simpl in Hgrid; rewrite Hgrid.
      * split; [|by eauto]. intros _ _ _ Hno. destruct Hno. by apply Hrows.
      * split; [done|]. intros _ _ _ Hyes. destruct Hmiss. by apply Hrows.
Qed.

(** X12.  A rectangle with a NaN among its four numbers never reaches the
    goal: [checkGoal] returns [false] and changes nothing. *)
Theorem checkGoal_nan_rect_is_false (r : Rect) (st : state) (g : Point) :
  h_goals (st_heap st) !! goal (this st) = Some g →
  has_nan r →
  checkGoal r st = (Return false, st).
Proof.
  intros Hg Hnan. apply (checkGoal_no_overlap r st g Hg).
  rewrite goalRect_of_int. unfold overlap_of.
  cbn [Level.x Level.y rwidth rheight]. unfold gtb.
  destruct Hnan as [E|[E|[E|E]]]; rewrite E.
  - done.
  - rewrite andb_false_iff. left. rewrite andb_false_iff. by right.
  - rewrite add_NaN_r. rewrite andb_false_iff. left.
    rewrite andb_false_iff. left. rewrite andb_false_iff. right.
    by destruct (int _).
  - rewrite add_NaN_r. rewrite andb_false_iff. right. by destruct (int _).
Qed.

Lemma checkGoal_nan_rect_is_false_witness :
  checkGoal {| x := int 96; y := int 64; rwidth := NaN; rheight := int 32 |}
    (State valid_heap valid_level)
  = (Return false, State valid_heap valid_level).
Proof.
  apply (checkGoal_nan_rect_is_false _ (State valid_heap valid_level)
           {| px := 3; py := 2 |}).
  - reflexivity.
  - right. right. left. reflexivity.
Defined.

(** ** The overlap test as geometry *)

Section Geometry.
Local Open Scope Qc_scope.

Lemma Qc_two_pos : 0 < 2.
Proof. done. Qed.

Lemma Qc_half_double (a : Qc) : a / 2 * 2 = a.
Proof. rewrite Qcmult_comm. apply Qcmult_div_r. done. Qed.

Lemma Qc_midpoint (lo hi : Qc) :
  lo < hi → lo < (lo + hi) / 2 ∧ (lo + hi) / 2 < hi.
Proof.
  intros Hlt.
  rewrite (Qcmult_lt_mono_pos_r lo _ 2 Qc_two_pos).
  rewrite (Qcmult_lt_mono_pos_r _ hi 2 Qc_two_pos).
  rewrite Qc_half_double.
  replace (lo * 2) with (lo + lo) by ring.
  replace (hi * 2) with (hi + hi) by ring.
  split.
  - by apply Qcplus_lt_mono_l.
  - by apply Qcplus_lt_mono_r.
Qed.

(** Two open intervals meet exactly when each starts before the other
    ends. *)
Lemma open_intervals_meet (a b c d : Qc) :
  a < b → c < d →
  (a < d ∧ c < b) ↔ ∃ p, (a < p ∧ p < b) ∧ (c < p ∧ p < d).
Proof.
  intros Hab Hcd. split.
  - intros [Had Hcb].
    destruct (Qclt_le_dec a c) as [Hac|Hca];
      destruct (Qclt_le_dec b d) as [Hbd|Hdb].
    + destruct (Qc_midpoint c b Hcb) as [H1 H2]. exists ((c + b) / 2).
      repeat split; try done; by etrans.
    + destruct (Qc_midpoint c d Hcd) as [H1 H2]. exists ((c + d) / 2).
      repeat split; try done.
      * by etrans.
      * by eapply Qclt_le_trans.
    + destruct (Qc_midpoint a b Hab) as [H1 H2]. exists ((a + b) / 2).
      repeat split; try done.
      * by eapply Qcle_lt_trans.
      * by etrans.
    + destruct (Qc_midpoint a d Had) as [H1 H2]. exists ((a + d) / 2).
      repeat split; try done.
      * by eapply Qclt_le_trans.
      * by eapply Qcle_lt_trans.
  - intros (p & [Hap Hpb] & [Hcp Hpd]). split; by etrans.
Qed.

End Geometry.

Lemma goal_right_edge (g : Point) :
  Qc_of_Z (px g * TILE_SIZE + TILE_SIZE) = (goal_left g + tile_side)%Qc.
Proof. unfold goal_left, tile_side. by rewrite Z2Qc_inj_add. Qed.

Lemma goal_bottom_edge (g : Point) :
  Qc_of_Z (py g * TILE_SIZE + TILE_SIZE) = (goal_top g + tile_side)%Qc.
Proof. unfold goal_top, tile_side. by rewrite Z2Qc_inj_add. Qed.

(** X13.  Take a rectangle with finite fields whose right edge
    [r = x + width] and bottom edge [b = y + height], the sums as binary64
    rounds them, are finite and lie right of [x] and below [y], and a goal
    whose world-space edges are below [2^53].  Then [checkGoal] returns
    [true] exactly when the interior of the rectangle with the edges [x],
    [r], [y], [b] and the interior of the goal tile's world-space square
    have a point in common. *)
Theorem checkGoal_true_iff_interiors_meet
    (st : state) (g : Point) (x y w h r b : Qc) :
  h_goals (st_heap st) !! goal (this st) = Some g →
  goal_edges_exact g →
  F64.add (Fin x) (Fin w) = Fin r → F64.add (Fin y) (Fin h) = Fin b →
  (x < r)%Qc → (y < b)%Qc →
  (Level64.checkGoal (fin_rect x y w h) st).1 = Return true
  ↔ ∃ p q : Qc,
      strictly_inside p q x r y b
      ∧ strictly_inside p q (goal_left g) (goal_left g + tile_side)
          (goal_top g) (goal_top g + tile_side).
Proof.
  intros Hg Hsafe Hr Hb Hxr Hyb. rewrite (checkGoal64_result _ st g Hg).
  assert (Hgx : (goal_left g < goal_left g + tile_side)%Qc).
  { rewrite <- (Qcplus_0_r (goal_left g)) at 1.
    apply Qcplus_lt_mono_l, tile_size_pos. }
  assert (Hgy : (goal_top g < goal_top g + tile_side)%Qc).
  { rewrite <- (Qcplus_0_r (goal_top g)) at 1.
    apply Qcplus_lt_mono_l, tile_size_pos. }
  pose proof (open_intervals_meet x r (goal_left g)
                (goal_left g + tile_side) Hxr Hgx) as Hx.
  pose proof (open_intervals_meet y b (goal_top g)
                (goal_top g + tile_side) Hyb Hgy) as Hy.
  split.
  - intros [= Ho].
    apply (overlap64_fin g x y w h r b Hsafe Hr Hb) in Ho as (H1 & H2 & H3 & H4).
    rewrite goal_right_edge in H1. rewrite goal_bottom_edge in H3.
    destruct Hx as [Hx _], Hy as [Hy _].
    destruct (Hx (conj H1 H2)) as (p & [? ?] & [? ?]).
    destruct (Hy (conj H3 H4)) as (q & [? ?] & [? ?]).
    exists p, q. by repeat split.
  - intros (p & q & (? & ? & ? & ?) & (? & ? & ? & ?)). f_equal.
    apply (overlap64_fin g x y w h r b Hsafe Hr Hb).
    rewrite goal_right_edge, goal_bottom_edge.
    destruct Hx as [_ Hx], Hy as [_ Hy].
    destruct Hx as [? ?]; [by exists p|].
    destruct Hy as [? ?]; [by exists q|]. done.
Qed.

Lemma checkGoal_true_iff_interiors_meet_witness :
  let q := Qc_of_Z in
  let g := {| px := 3; py := 2 |} in
  (Level64.checkGoal (fin_rect (q 100) (q 70) (q 32) (q 32))
     (State valid_heap valid_level)).1 = Return true
  ↔ ∃ p0 q0 : Qc,
      strictly_inside p0 q0 (q 100) (q 132) (q 70) (q 102)
      ∧ strictly_inside p0 q0 (goal_left g) (goal_left g + tile_side)
          (goal_top g) (goal_top g + tile_side).
Proof.
  intros q g.
  apply (checkGoal_true_iff_interiors_meet (State valid_heap valid_level)
           g (q 100) (q 70) (q 32) (q 32) (q 132) (q 102)).
  - reflexivity.
  - split; reflexivity.
  - apply num_fin_eq. vm_compute. reflexivity.
  - apply num_fin_eq. vm_compute. reflexivity.
  - reflexivity.
  - reflexivity.
Defined.

(** ** The asset manifest *)

Section ManifestFacts.
Import AssetManifest.
Context (MANIFEST_PATH : string) (JSON_parse : string → parsed + string).

Abbreviation loadManifest := (loadManifest MANIFEST_PATH JSON_parse).
Abbreviation getAsset := (getAsset MANIFEST_PATH JSON_parse).
Abbreviation listAssetsByType := (listAssetsByType MANIFEST_PATH JSON_parse).
Abbreviation getVersion := (getVersion MANIFEST_PATH JSON_parse).

Lemma loadManifest_hit (d : outcome string) (m : Manifest) :
  loadManifest (Env d (PManifest m))
  = (Return (PManifest m), Env d (PManifest m)).
Proof. done. Qed.

Lemma loadManifest_Return_manifest (w w1 : env) (m : Manifest) :
  loadManifest w = (Return (PManifest m), w1) →
  w1 = Env (disk w) (PManifest m).
Proof.
  unfold AssetManifest.loadManifest. destruct w as [d c]. cbn [disk _manifestCache].
  destruct c as [| |m0].
  - destruct d as [raw|e]; [|done].
    destruct (JSON_parse raw) as [v|msg]; [|done]. by intros [= -> <-].
  - destruct d as [raw|e]; [|done].
    destruct (JSON_parse raw) as [v|msg]; [|done]. by intros [= -> <-].
  - by intros [= -> <-].
Qed.

Lemma find_first {A} (f : A → bool) (l : list A) (a : A) :
  List.find f l = Some a
  ↔ ∃ i, l !! i = Some a ∧ f a = true
         ∧ ∀ j b, (j < i)%nat → l !! j = Some b → f b = false.
Proof.
  induction l as [|c l IH]; simpl.
  - split; [done|]. by intros (i & ? & _).
  - destruct (f c) eqn:Hc.
    + split.
      * intros [= ->]. exists 0%nat. repeat split; try done. lia.
      * intros ([|i] & Hi & Ha & Hfirst).
        -- by injection Hi as ->.
        -- specialize (Hfirst 0%nat c). simpl in Hfirst.
           rewrite Hfirst in Hc by (done || lia). done.
    + rewrite IH. split.
      * intros (i & Hi & Ha & Hfirst). exists (Datatypes.S i).
        repeat split; try done.
        intros [|j] b Hj Hb; [by injection Hb as <-|].
        apply (Hfirst j); [lia|done].
      * intros ([|i] & Hi & Ha & Hfirst).
        -- injection Hi as ->. congruence.
        -- exists i. repeat split; try done.
           intros j b Hj Hb. apply (Hfirst (Datatypes.S j)); [lia|done].
Qed.

Lemma find_none_iff {A} (f : A → bool) (l : list A) :
  List.find f l = None ↔ ∀ a, a ∈ l → f a = false.
Proof.
  split.
  - intros Hnone a Ha. apply (find_none f l Hnone). by apply list_elem_of_In.
  - intros Hall. destruct (List.find f l) as [a|] eqn:Hf; [|done].
    apply find_some in Hf as [Hin Ha]. apply list_elem_of_In in Hin.
    rewrite (Hall a Hin) in Ha. done.
Qed.

(** X14.  The manifest is read and parsed at most once: after a call of
    [loadManifest] has returned a manifest object, every later call returns
    that same manifest without looking at the file, whatever has become of
    the file (changed, deleted, unreadable). *)
Theorem loadManifest_reads_file_once
    (w w1 : env) (m : Manifest) (d' : outcome string) :
  loadManifest w = (Return (PManifest m), w1) →
  loadManifest (Env d' (_manifestCache w1))
  = (Return (PManifest m), Env d' (_manifestCache w1)).
Proof.
  intros Hload. apply loadManifest_Return_manifest in Hload as ->.
  apply loadManifest_hit.
Qed.

(** X15.  When [loadManifest] fails, nothing is cached, so a later call
    tries the file again.  A failure to read the file is passed on as it
    is; a failure to parse it is replaced by an error whose message names
    the manifest path and carries the parser's message. *)
Theorem loadManifest_failure (w w1 : env) (e : error) :
  loadManifest w = (Throw e, w1) →
  w1 = w
  ∧ (∀ m, _manifestCache w ≠ PManifest m)
  ∧ (disk w = Throw e
     ∨ ∃ raw message,
         disk w = Return raw ∧ JSON_parse raw = inr message
         ∧ e = Error_ ("Failed to parse asset manifest at "
                       +:+ MANIFEST_PATH +:+ ": " +:+ message)).
Proof.
  unfold AssetManifest.loadManifest. destruct w as [d c]. cbn [disk _manifestCache].
  destruct c as [| |m0]; [| |done].
  - destruct d as [raw|e0].
    + destruct (JSON_parse raw) as [v|msg] eqn:Hp; [done|].
      intros [= <- <-]. split; [done|]. split; [done|]. right. eauto.
    + intros [= <- <-]. split; [done|]. split; [done|]. by left.
  - destruct d as [raw|e0].
    + destruct (JSON_parse raw) as [v|msg] eqn:Hp; [done|].
      intros [= <- <-]. split; [done|]. split; [done|]. right. eauto.
    + intros [= <- <-]. split; [done|]. split; [done|]. by left.
Qed.

(** X16.  With a manifest loaded, [getAsset(name)] returns the first entry
    of [assets] whose name is [name], entries before it having other
    names, and [null] exactly when no entry has that name. *)
Theorem getAsset_first_entry_with_name
    (d : outcome string) (m : Manifest) (l : list Asset) (n : string) :
  assets m = Some l →
  ∃ r, getAsset n (Env d (PManifest m)) = (Return r, Env d (PManifest m))
     ∧ (∀ a, r = Some a ↔
          ∃ i, l !! i = Some a ∧ name a = n
               ∧ ∀ j b, (j < i)%nat → l !! j = Some b → name b ≠ n)
     ∧ (r = None ↔ ∀ a, a ∈ l → name a ≠ n).
Proof.
  intros Hl. eexists. split.
  - unfold AssetManifest.getAsset. rewrite loadManifest_hit.
    cbn [assets_of]. by rewrite Hl.
  - split.
    + intros a. rewrite find_first. split.
      * intros (i & Hi & Ha & Hfirst). exists i.
        apply bool_decide_eq_true in Ha. repeat split; try done.
        intros j b Hj Hb. specialize (Hfirst j b Hj Hb).
        by apply bool_decide_eq_false in Hfirst.
      * intros (i & Hi & Ha & Hfirst). exists i.
        repeat split; try done; [by apply bool_decide_eq_true|].
        intros j b Hj Hb. apply bool_decide_eq_false. by eapply Hfirst.
    + rewrite find_none_iff. split.
      * intros Hall a Ha. specialize (Hall a Ha).
        by apply bool_decide_eq_false in Hall.
      * intros Hall a Ha. apply bool_decide_eq_false. by apply Hall.
Qed.

(** A part of [l] all of whose entries satisfy [P] is a part of the
    entries of [l] that satisfy [P]. *)
Lemma sublist_filter_max {A} (P : A → Prop) `{∀ x, Decision (P x)}
    (k l : list A) :
  k `sublist_of` l → Forall P k → k `sublist_of` filter P l.
Proof.
  induction 1 as [|x k l Hkl IH|x k l Hkl IH]; intros HP.
  - constructor.
  - inversion HP; subst. rewrite filter_cons_True by done.
    constructor. by apply IH.
  - rewrite filter_cons. destruct (decide (P x)).
    + apply sublist_cons. by apply IH.
    + by apply IH.
Qed.

(** X17.  With a manifest loaded, [listAssetsByType(type)] returns exactly
    the entries of [assets] of that type, each as often as the manifest
    has it and in the order of the manifest: the result is a part of
    [assets] (entries left out, order kept) whose entries all have the
    type, and every such part of [assets] is a part of the result. *)
Theorem listAssetsByType_entries_of_type
    (d : outcome string) (m : Manifest) (l : list Asset) (t : string) :
  assets m = Some l →
  ∃ r, listAssetsByType t (Env d (PManifest m))
       = (Return r, Env d (PManifest m))
     ∧ (∀ a, a ∈ r ↔ a ∈ l ∧ type a = t)
     ∧ r `sublist_of` l
     ∧ ∀ k, k `sublist_of` l → Forall (λ a, type a = t) k → k `sublist_of` r.
Proof.
  intros Hl. eexists. split.
  - unfold AssetManifest.listAssetsByType. rewrite loadManifest_hit.
    cbn [assets_of]. by rewrite Hl.
  - split; [|split].
    + intros a. rewrite list_elem_of_filter. tauto.
    + apply sublist_filter.
    + intros k Hk HP. by apply sublist_filter_max.
Qed.


End ManifestFacts.

(** ** Rendering a level *)

Section RenderFacts.
Import AssetLoader LevelView.

Lemma render_row_Some n x y r t cs :
  render_row n x y (Some r) t cs
  = Return (cs ++ ((λ i, new_sprite t i y) <$> seq x n)).
Proof.
  revert x cs. induction n as [|n IH]; intros x cs.
  - simpl. by rewrite app_nil_r.
  - cbn [render_row]. rewrite IH. simpl. by rewrite <- app_assoc.
Qed.

Lemma render_rows_cases n y w tls t cs :
  (0 < Z.to_nat w)%nat →
  (Forall (λ j, is_Some (tls ≫= (.!! j))) (seq y n)
   ∧ render_rows n y w tls t cs
     = Return (cs ++ concat ((λ j, (λ i, new_sprite t i j)
                                     <$> seq 0 (Z.to_nat w)) <$> seq y n)))
  ∨ (¬ Forall (λ j, is_Some (tls ≫= (.!! j))) (seq y n)
     ∧ render_rows n y w tls t cs = Throw TypeError).
Proof.
  intros Hw. revert y cs. induction n as [|n IH]; intros y cs.
  - left. split; [constructor|]. simpl. by rewrite app_nil_r.
  - cbn [render_rows seq]. destruct (tls ≫= (.!! y)) as [r|] eqn:Hrow.
    + rewrite render_row_Some.
      destruct (IH (Datatypes.S y)
                  (cs ++ ((λ i, new_sprite t i y) <$> seq 0 (Z.to_nat w))))
        as [[Hall ->]|[Hnot ->]].
      * left. split; [constructor; [by rewrite Hrow|done]|].
        cbn [fmap list_fmap concat]. by rewrite <- app_assoc.
      * right. split; [|done]. intros Hall. apply Hnot.
        by apply Forall_cons in Hall as [_ ?].
    + right. split.
      * intros Hall. apply Forall_cons in Hall as [Hs _].
        rewrite Hrow in Hs. by destruct Hs.
      * destruct (Z.to_nat w) eqn:E; [lia|]. done.
Qed.

Lemma length_rows {A} (f : nat → list A) (w y n : nat) :
  (∀ j, length (f j) = w) →
  length (concat (f <$> seq y n)) = (n * w)%nat.
Proof.
  intros Hf. revert y. induction n as [|n IH]; intros y; [done|].
  cbn [seq fmap list_fmap concat]. rewrite length_app, Hf, IH. lia.
Qed.

Lemma lookup_rows {A} (f : nat → list A) (w y n j x : nat) :
  (∀ k, length (f k) = w) →
  (j < n)%nat → (x < w)%nat →
  concat (f <$> seq y n) !! (j * w + x)%nat = f (y + j)%nat !! x.
Proof.
  intros Hf. revert y j. induction n as [|n IH]; intros y j Hj Hx; [lia|].
  cbn [seq fmap list_fmap concat]. destruct j as [|j].
  - rewrite lookup_app_l by (rewrite Hf; lia). by rewrite Nat.add_0_r.
  - rewrite lookup_app_r by (rewrite Hf; lia). rewrite Hf.
    replace (Datatypes.S j * w + x - w)%nat with (j * w + x)%nat by lia.
    rewrite IH by lia.
    by replace (Datatypes.S y + j)%nat with (y + Datatypes.S j)%nat by lia.
Qed.

Lemma new_sprite_tile t (x y : Z) :
  0 ≤ x → 0 ≤ y →
  new_sprite t (Z.to_nat x) (Z.to_nat y) = tile_sprite t x y.
Proof. intros. unfold new_sprite, tile_sprite. by rewrite !Z2Nat.id. Qed.

End RenderFacts.

Section RenderTheorems.
Import AssetLoader LevelView.

Lemma loadTileset_Return from p s s' :
  loadTileset from p s = (Return (), s') → s' = Some {| base_from := p |}.
Proof. unfold loadTileset. destruct (from p); [done|]. by intros [= <-]. Qed.

Lemma render_rows_throw n y w tls t cs e :
  render_rows n y w tls t cs = Throw e → e = TypeError.
Proof.
  revert y cs. induction n as [|n IH]; intros y cs; [done|].
  cbn [render_rows].
  destruct (tls ≫= (.!! y)) as [r|].
  - rewrite render_row_Some. apply IH.
  - destruct (Z.to_nat w); cbn [render_row]; [apply IH|by intros [= <-]].
Qed.

Lemma filter_Destroy_warn (effs : list effect) (b : bool) (n : Z) :
  List.filter is_Destroy (if b then effs else effs ++ [Warn n])
  = List.filter is_Destroy effs.
Proof.
  destruct b; [done|]. rewrite List.filter_app. simpl. by rewrite app_nil_r.
Qed.

Lemma render_Return container v C v1 c1 :
  render container v = (Return C, v1, c1) →
  c1 = (λ cs, cs ++ [C]) <$> container
  ∧ _renderContainer v1 = Some C
  ∧ level v1 = level v
  ∧ tilesetTexture v1 = tilesetTexture v
  ∧ List.filter is_Destroy (effects v1) = List.filter is_Destroy (effects v).
Proof.
  unfold render. destruct (getTilesetTexture _) as [t|e]; [|done].
  destruct (render_rows _ _ _ _ _ _) as [cs|e]; [|done].
  intros [= <- <- <-]. cbn [_renderContainer level tilesetTexture effects].
  repeat split; try done. apply filter_Destroy_warn.
Qed.

(** X19.  After a call [loadTileset(p)] that returned, rendering a
    constructed level (of fewer than [2^53] tiles) succeeds and makes
    exactly one sprite per tile, in row-major order: the child at index
    [y * width + x] is a [TILE_SIZE] square at
    [(x * TILE_SIZE, y * TILE_SIZE)] carrying the texture made from [p].
    The container is a ParticleContainer sized [width * height] when that
    is at most [MAX_PARTICLE_TILES], otherwise a plain Container together
    with one warning.  The container is appended to the parent, if one was
    given, and remembered by the level. *)
Theorem render_makes_one_sprite_per_tile
    (d : Document) (h : heap) (L : Level)
    (BaseTexture_from : string → option error) (p : string)
    (tex0 tex : option Texture)
    (rc : option Container) (eff : list effect)
    (container : option (list Container)) :
  new_Level d h = Return L →
  safe_integer (width L * height L) →
  loadTileset BaseTexture_from p tex0 = (Return (), tex) →
  let t := {| base_from := p |} in
  let total := width L * height L in
  ∃ C,
    render container (View (State h L) tex rc eff)
    = (Return C,
       View (State h L) tex (Some C)
         (eff ++ if total <=? MAX_PARTICLE_TILES then [] else [Warn total]),
       (λ cs, cs ++ [C]) <$> container)
    ∧ C = (if total <=? MAX_PARTICLE_TILES then ParticleContainer total
           else PlainContainer) (children_of C)
    ∧ length (children_of C) = Z.to_nat total
    ∧ ∀ x y, 0 ≤ x < width L → 0 ≤ y < height L →
        children_of C !! Z.to_nat (y * width L + x) = Some (tile_sprite t x y).
Proof.
  intros Hnew _ Hload t total.
  apply loadTileset_Return in Hload as ->.
  destruct (new_Level_Return d h L Hnew)
    as (g & m & _ & Hm & Hgx & Hgy & Hrows & HL).
  assert (Hw : width L = d_width d) by (by rewrite HL).
  assert (Hh : height L = d_height d) by (by rewrite HL).
  assert (Ht : tiles L = d_tiles d) by (by rewrite HL).
  unfold render. cbn [level tilesetTexture this st_heap effects _renderContainer].
  cbn [getTilesetTexture].
  fold t. fold total.
  destruct (render_rows_cases (Z.to_nat (height L)) 0 (width L)
              (h_tiles h !! tiles L) t []) as [[_ Hrun]|[Hmiss _]]; [lia| |].
  2:{ exfalso. apply Hmiss. apply Forall_forall. intros j Hj.
      apply elem_of_seq in Hj. rewrite Ht, Hm. simpl. apply Hrows. lia. }
  rewrite Hrun. cbn [app].
  set (cs := concat _).
  assert (Hlen : length cs = Z.to_nat total).
  { unfold cs. rewrite (length_rows _ (Z.to_nat (width L))).
    - unfold total. rewrite Z2Nat.inj_mul by lia. lia.
    - intros j. by rewrite length_fmap, length_seq. }
  assert (Hcell : ∀ x y, 0 ≤ x < width L → 0 ≤ y < height L →
            cs !! Z.to_nat (y * width L + x) = Some (tile_sprite t x y)).
  { intros x y Hx Hy. unfold cs.
    rewrite Z2Nat.inj_add by nia. rewrite Z2Nat.inj_mul by lia.
    rewrite (lookup_rows _ (Z.to_nat (width L))); [| |lia..].
    - rewrite list_lookup_fmap, lookup_seq_lt by lia. simpl.
      by rewrite new_sprite_tile by lia.
    - intros j. by rewrite length_fmap, length_seq. }
  destruct (total <=? MAX_PARTICLE_TILES) eqn:Hp.
  - exists (ParticleContainer total cs). rewrite app_nil_r. done.
  - exists (PlainContainer cs). done.
Qed.

Lemma render_makes_one_sprite_per_tile_witness :
  let t := {| base_from := "tileset.png" |} in
  ∃ C,
    render (Some []) (View (State valid_heap valid_level) (Some t) None [])
    = (Return C,
       View (State valid_heap valid_level) (Some t) (Some C)
         ([] ++ if width valid_level * height valid_level <=? MAX_PARTICLE_TILES
                then [] else [Warn (width valid_level * height valid_level)]),
       (λ cs, cs ++ [C]) <$> Some [])
    ∧ C = (if width valid_level * height valid_level <=? MAX_PARTICLE_TILES
           then ParticleContainer (width valid_level * height valid_level)
           else PlainContainer) (children_of C)
    ∧ length (children_of C)
      = Z.to_nat (width valid_level * height valid_level)
    ∧ ∀ x y, 0 ≤ x < width valid_level → 0 ≤ y < height valid_level →
        children_of C !! Z.to_nat (y * width valid_level + x)
        = Some (tile_sprite t x y).
Proof.
  intros t.
  apply (render_makes_one_sprite_per_tile valid_document valid_heap
           valid_level sample_BaseTexture_from "tileset.png" None (Some t)
           None [] (Some [])).
  - vm_compute. reflexivity.
  - reflexivity.
  - reflexivity.
Defined.

(** X20.  A call of [render] that throws leaves no trace in the scene: the
    parent container is not touched and the level keeps the render
    container it had.  It throws the texture error, before doing anything,
    when no tileset is loaded, and otherwise only a TypeError (a row of
    [tiles] is missing). *)
Theorem render_failure_leaves_scene
    (container : option (list Container)) (v v1 : view) (e : error)
    (c1 : option (list Container)) :
  render container v = (Throw e, v1, c1) →
  c1 = container
  ∧ _renderContainer v1 = _renderContainer v
  ∧ level v1 = level v
  ∧ ((tilesetTexture v = None ∧ v1 = v
      ∧ e = Error_ "Tileset texture not loaded. Call loadTileset() first.")
     ∨ (is_Some (tilesetTexture v) ∧ e = TypeError)).
Proof.
  unfold render. destruct (tilesetTexture v) as [t|] eqn:Htex;
    cbn [getTilesetTexture].
  - destruct (render_rows _ _ _ _ _ _) as [cs|e0] eqn:Hrows; [done|].
    intros [= <- <- <-]. cbn [_renderContainer level].
    repeat split; try done. right. split; [by eexists|].
    by eapply render_rows_throw.
  - intros [= <- <- <-]. repeat split; try done. by left.
Qed.

Lemma render_failure_leaves_scene_witness :
  let v := View (State valid_heap valid_level) None None [] in
  (Some [] : option (list Container)) = Some []
  ∧ _renderContainer v = _renderContainer v
  ∧ level v = level v
  ∧ ((tilesetTexture v = None ∧ v = v
      ∧ Error_ "Tileset texture not loaded. Call loadTileset() first."
        = Error_ "Tileset texture not loaded. Call loadTileset() first.")
     ∨ (is_Some (tilesetTexture v)
        ∧ Error_ "Tileset texture not loaded. Call loadTileset() first."
          = TypeError)).
Proof.
  intros v.
  apply (render_failure_leaves_scene (Some []) v v
           (Error_ "Tileset texture not loaded. Call loadTileset() first.")
           (Some [])).
  reflexivity.
Defined.

(** X21.  [destroy] releases only the render container of the last
    [render].  After two successful renders into the same parent, the
    parent holds both render containers, while [destroy] destroys just the
    second; the level forgets its container, and a second [destroy]
    destroys nothing more. *)
Theorem destroy_releases_last_render_only
    (container c1 c2 : option (list Container)) (v v1 v2 : view)
    (C1 C2 : Container) :
  render container v = (Return C1, v1, c1) →
  render c1 v1 = (Return C2, v2, c2) →
  c2 = (λ cs, cs ++ [C1; C2]) <$> container
  ∧ _renderContainer (destroy v2) = None
  ∧ level (destroy v2) = level v
  ∧ List.filter is_Destroy (effects (destroy v2))
    = List.filter is_Destroy (effects v) ++ [Destroy C2]
  ∧ List.filter is_Destroy (effects (destroy (destroy v2)))
    = List.filter is_Destroy (effects (destroy v2)).
Proof.
  intros Hr1 Hr2.
  apply render_Return in Hr1 as (-> & Hrc1 & Hl1 & _ & He1).
  apply render_Return in Hr2 as (-> & Hrc2 & Hl2 & _ & He2).
  split.
  { destruct container as [cs|]; [|done]. simpl. by rewrite <- app_assoc. }
  split; [done|]. split; [by rewrite <- Hl1, <- Hl2|].
  unfold destroy. cbn [_renderContainer effects]. rewrite Hrc2.
  rewrite !List.filter_app. simpl. rewrite !app_nil_r.
  by rewrite He2, He1.
Qed.

Lemma destroy_releases_last_render_only_witness :
  Some [tiny_container; tiny_container]
  = (λ cs, cs ++ [tiny_container; tiny_container]) <$> Some []
  ∧ _renderContainer (destroy (tiny_view (Some tiny_container))) = None
  ∧ level (destroy (tiny_view (Some tiny_container))) = level (tiny_view None)
  ∧ List.filter is_Destroy (effects (destroy (tiny_view (Some tiny_container))))
    = List.filter is_Destroy (effects (tiny_view None))
      ++ [Destroy tiny_container]
  ∧ List.filter is_Destroy
      (effects (destroy (destroy (tiny_view (Some tiny_container)))))
    = List.filter is_Destroy
        (effects (destroy (tiny_view (Some tiny_container)))).
Proof.
  apply (destroy_releases_last_render_only
           (Some []) (Some [tiny_container])
           (Some [tiny_container; tiny_container])
           (tiny_view None) (tiny_view (Some tiny_container))
           (tiny_view (Some tiny_container))
           tiny_container tiny_container).
  - vm_compute. reflexivity.
  - vm_compute. reflexivity.
Defined.

End RenderTheorems.

Section ManifestWitnesses.
Import AssetManifest.

Lemma loadManifest_reads_file_once_witness :
  let gone := Throw (Error_ "ENOENT: no such file or directory") in
  loadManifest "/assetManifest.json" sample_parse
    (Env gone (_manifestCache (Env (Return "manifest"%string)
                                 (PManifest sample_manifest))))
  = (Return (PManifest sample_manifest),
     Env gone (_manifestCache (Env (Return "manifest"%string)
                                 (PManifest sample_manifest)))).
Proof.
  intros gone.
  apply (loadManifest_reads_file_once "/assetManifest.json" sample_parse
           (Env (Return "manifest"%string) PNull)
           (Env (Return "manifest"%string) (PManifest sample_manifest))
           sample_manifest gone).
  reflexivity.
Defined.

Lemma loadManifest_failure_witness :
  let w := Env (Return "{oops"%string) PNull in
  let e := Error_ "Failed to parse asset manifest at /assetManifest.json: Unexpected token" in
  w = w
  ∧ (∀ m, _manifestCache w ≠ PManifest m)
  ∧ (disk w = Throw e
     ∨ ∃ raw message,
         disk w = Return raw ∧ sample_parse raw = inr message
         ∧ e = Error_ ("Failed to parse asset manifest at "
                       +:+ "/assetManifest.json" +:+ ": " +:+ message)).
Proof.
  intros w e.
  apply (loadManifest_failure "/assetManifest.json" sample_parse w w e).
  reflexivity.
Defined.

Lemma getAsset_first_entry_with_name_witness :
  ∃ r, getAsset "/assetManifest.json" sample_parse "playerSprite"
         (Env (Throw TypeError) (PManifest sample_manifest))
       = (Return r, Env (Throw TypeError) (PManifest sample_manifest))
     ∧ (∀ a, r = Some a ↔
          ∃ i, sample_assets !! i = Some a ∧ name a = "playerSprite"%string
               ∧ ∀ j b, (j < i)%nat → sample_assets !! j = Some b →
                        name b ≠ "playerSprite"%string)
     ∧ (r = None ↔ ∀ a, a ∈ sample_assets → name a ≠ "playerSprite"%string).
Proof.
  apply (getAsset_first_entry_with_name "/assetManifest.json" sample_parse
           (Throw TypeError) sample_manifest sample_assets "playerSprite").
  reflexivity.
Defined.

Lemma listAssetsByType_entries_of_type_witness :
  ∃ r, listAssetsByType "/assetManifest.json" sample_parse "image"
         (Env (Throw TypeError) (PManifest sample_manifest))
       = (Return r, Env (Throw TypeError) (PManifest sample_manifest))
     ∧ (∀ a, a ∈ r ↔ a ∈ sample_assets ∧ type a = "image"%string)
     ∧ r `sublist_of` sample_assets
     ∧ ∀ k, k `sublist_of` sample_assets →
            Forall (λ a, type a = "image"%string) k → k `sublist_of` r.
Proof.
  apply (listAssetsByType_entries_of_type "/assetManifest.json" sample_parse
           (Throw TypeError) sample_manifest sample_assets "image").
  reflexivity.
Defined.


End ManifestWitnesses.

(** ** The renderer's life cycle *)

Section RendererFacts.
Import Renderer.

Lemma perform_keeps_shape o running inited children r c :
  renderer_shape o running inited children r →
  is_destroy_call c = false →
  ∃ r', perform c r = (Return (), r')
        ∧ renderer_shape o
            (match c with Start => true | Stop => false | _ => running end)
            (inited || initialises c)
            (if inited then children ++ from_option (λ x, [x]) [] (added_child c)
             else from_option (λ x, [x]) [] (added_child c))
            r'.
Proof.
  intros (Hw & Hh & Ha & Hi & Hs) Hc.
  destruct r as [w h m a s i lg]. cbn in Hw, Hh, Ha, Hi, Hs. subst.
  destruct c as [| | |child|]; [| | | |done];
    destruct inited, running; cbn; try destruct (truthy child);
    eexists; (split; [reflexivity|]);
    unfold renderer_shape; cbn; rewrite ?app_nil_r; done.
Qed.

Lemma perform_all_snoc cs c r :
  perform_all (cs ++ [c]) r
  = match perform_all cs r with
    | (Throw e, r1) => (Throw e, r1)
    | (Return _, r1) => perform c r1
    end.
Proof.
  revert r. induction cs as [|c0 cs IH]; intros r; simpl.
  - by destruct (perform c r) as [[[]|e] r1].
  - destruct (perform c0 r) as [[[]|e] r1]; [apply IH|done].
Qed.

(** X22.  A renderer that is never destroyed never fails: any sequence of
    [init], [start], [stop] and [addToStage] calls on a new renderer runs
    through.  Afterwards the ticker runs exactly when the last [start] or
    [stop] of the sequence was a [start]; the renderer is initialised, with
    a single root container on the application's stage, exactly when the
    sequence had an [init], [start] or [addToStage]; and the root container
    holds the truthy children given to [addToStage], in order, each once. *)
Theorem renderer_calls_never_fail (o : Options) (cs : list call) :
  forallb (λ c, negb (is_destroy_call c)) cs = true →
  ∃ r, perform_all cs (new_Renderer o) = (Return (), r)
     ∧ app r = Some {| ticker_started := wants_running cs;
                       stage_children :=
                         if existsb initialises cs then 1 else 0;
                       view_mounted :=
                         match o_mount o with Element => true | _ => false end |}
     ∧ _initialized r = existsb initialises cs
     ∧ stage r = (if existsb initialises cs
                  then Some (omap added_child cs) else None)
     ∧ width r = or_default (o_width o) 800
     ∧ height r = or_default (o_height o) 600.
Proof.
  intros Hcs.
  assert (Hshape : ∃ r, perform_all cs (new_Renderer o) = (Return (), r)
            ∧ renderer_shape o (wants_running cs) (existsb initialises cs)
                (omap added_child cs) r).
  { induction cs as [|c cs IH] using rev_ind.
    - eexists. split; [reflexivity|]. by unfold renderer_shape.
    - rewrite forallb_app in Hcs. apply andb_true_iff in Hcs as [Hcs Hc].
      simpl in Hc. rewrite andb_true_r in Hc. apply negb_true_iff in Hc.
      destruct (IH Hcs) as (r & Hrun & Hr).
      destruct (perform_keeps_shape o _ _ _ r c Hr Hc) as (r' & Hstep & Hr').
      exists r'. split; [by rewrite perform_all_snoc, Hrun|].
      unfold wants_running. rewrite foldl_app. cbn [foldl].
      rewrite existsb_app. cbn [existsb]. rewrite orb_false_r.
      rewrite omap_app.
      fold (wants_running cs).
      assert (Hone : omap added_child [c]
                     = from_option (λ x, [x]) [] (added_child c)).
      { cbn. by destruct (added_child c). }
      rewrite Hone.
      destruct (existsb initialises cs) eqn:Hi; [exact Hr'|].
      assert (Hnone : omap added_child cs = []).
      { clear -Hi. induction cs as [|c0 cs IH]; [done|].
        simpl in Hi. apply orb_false_elim in Hi as [Hc0 Hi].
        cbn. rewrite (IH Hi). by destruct c0. }
      rewrite Hnone. cbn [app orb] in *.
      destruct (initialises c) eqn:Hic; [exact Hr'|].
      destruct c; try discriminate; exact Hr'. }
  destruct Hshape as (r & Hrun & Hw & Hh & Ha & Hi & Hs).
  exists r. by repeat split.
Qed.

Lemma renderer_calls_never_fail_witness :
  let o := {| o_width := VNum (int 0); o_height := VUndefined;
              o_mount := NoMount |} in
  let cs := [Stop; AddToStage VNull; Start; AddToStage (VObj []); Start; Stop] in
  ∃ r, perform_all cs (new_Renderer o) = (Return (), r)
     ∧ app r = Some {| ticker_started := wants_running cs;
                       stage_children :=
                         if existsb initialises cs then 1 else 0;
                       view_mounted :=
                         match o_mount o with Element => true | _ => false end |}
     ∧ _initialized r = existsb initialises cs
     ∧ stage r = (if existsb initialises cs
                  then Some (omap added_child cs) else None)
     ∧ width r = or_default (o_width o) 800
     ∧ height r = or_default (o_height o) 600.
Proof.
  intros o cs. apply (renderer_calls_never_fail o cs). reflexivity.
Defined.

(** X23.  A destroyed renderer is unusable, as its documentation warns: on
    a live renderer, after [destroy], the calls [start] and [stop] throw a
    TypeError, and so do [addToStage] with a truthy child and, unless the
    renderer had been initialised, [init]; an [init] on a destroyed but
    once initialised renderer returns quietly without bringing anything
    back, and a second [destroy] returns. *)
Theorem renderer_unusable_after_destroy (r : t) (a : Application) :
  app r = Some a →
  let r' := (destroy r).2 in
  app r' = None ∧ stage r' = None
  ∧ (start r').1 = Throw TypeError
  ∧ (stop r').1 = Throw TypeError
  ∧ (∀ child, truthy child = true →
       (addToStage child r').1 = Throw TypeError)
  ∧ (_initialized r = false → (init r').1 = Throw TypeError)
  ∧ (_initialized r = true →
       (init r').1 = Return () ∧ app (init r').2 = None
       ∧ stage (init r').2 = None)
  ∧ (destroy r').1 = Return ().
Proof.
  intros Ha. destruct r as [w h m ap s i lg]. cbn in Ha. subst ap.
  cbn. split; [done|]. split; [done|].
  destruct i; cbn; repeat split; try done.
  intros child ->. done.
Qed.

Lemma renderer_unusable_after_destroy_witness :
  let r := new_Renderer {| o_width := VUndefined; o_height := VUndefined;
                           o_mount := Element |} in
  let r' := (destroy r).2 in
  app r' = None ∧ stage r' = None
  ∧ (start r').1 = Throw TypeError
  ∧ (stop r').1 = Throw TypeError
  ∧ (∀ child, truthy child = true →
       (addToStage child r').1 = Throw TypeError)
  ∧ (_initialized r = false → (init r').1 = Throw TypeError)
  ∧ (_initialized r = true →
       (init r').1 = Return () ∧ app (init r').2 = None
       ∧ stage (init r').2 = None)
  ∧ (destroy r').1 = Return ().
Proof.
  intros r.
  apply (renderer_unusable_after_destroy r
           {| ticker_started := false; stage_children := 0;
              view_mounted := true |}).
  reflexivity.
Defined.

End RendererFacts.

(** ** Loading a level *)

Section LoaderFacts.
Import Loader.
Context (validate : heap → raw → bool) (errorsText : heap → raw → string).

Lemma construct_Return h json L logs :
  construct h json = (Return L, logs) →
  logs = [] ∧ ∃ d, json = RawDocument d ∧ new_Level d h = Return L.
Proof.
  unfold construct. destruct json as [d|]; [|done].
  destruct (new_Level d h) as [L0|e] eqn:Hnew.
  - intros [= <- <-]. eauto.
  - by destruct e.
Qed.

Lemma construct_Throw h json e logs :
  construct h json = (Throw e, logs) →
  logs = [] ∧ (∀ x y, e ≠ GoalOutOfBounds x y)
  ∨ ∃ x y, e = GoalOutOfBounds x y ∧ logs = [GoalOutOfBoundsLogged x y].
Proof.
  unfold construct. destruct json as [d|].
  - destruct (new_Level d h) as [L0|e0]; [done|].
    destruct e0; intros [= <- <-]; try (by left); right; eauto.
  - intros [= <- <-]. by left.
Qed.

(** X24.  [loadLevel] yields a level exactly when every stage succeeds:
    the fetch resolves with an [ok] response, its body decodes to a
    document, the schema accepts the document, and the constructor builds
    the level, which is then the result.  Nothing is logged on that
    path. *)
Theorem loadLevel_succeeds_iff_all_stages_do
    (url : string) (fetched : outcome Response) (h : heap)
    (L : Level) (logs : list log_entry) :
  loadLevel validate errorsText url fetched h = (Return L, logs)
  ↔ logs = []
    ∧ ∃ response d,
        fetched = Return response ∧ ok response = true
        ∧ json response = Return (RawDocument d)
        ∧ validate h (RawDocument d) = true
        ∧ new_Level d h = Return L.
Proof.
  unfold loadLevel, load_steps. split.
  - destruct fetched as [response|e]; [|by destruct (nullish e)].
    destruct (ok response) eqn:Hok; [|done]. cbn [negb].
    destruct (json response) as [js|e] eqn:Hjs; [|by destruct (nullish e)].
    destruct (validate h js) eqn:Hv; [|done]. cbn [negb].
    destruct (construct h js) as [[L0|e] lg] eqn:Hc; [|by destruct (nullish e)].
    intros [= <- <-].
    apply construct_Return in Hc as (-> & d & -> & Hnew).
    split; [done|]. by exists response, d.
  - intros (-> & response & d & -> & Hok & Hjs & Hv & Hnew).
    rewrite Hok, Hjs. cbn [negb]. rewrite Hv. cbn [negb construct].
    by rewrite Hnew.
Qed.

Lemma fill_row_Throw n x ids tiles_y row e :
  fill_row n x ids tiles_y row = Throw e → e = TypeError.
Proof.
  revert x row. induction n as [|n IH]; intros x row; [done|].
  cbn [fill_row]. destruct tiles_y; [apply IH|by intros [= <-]].
Qed.

Lemma fill_grid_Throw n y w ids tls grid e :
  fill_grid n y w ids tls grid = Throw e → e = TypeError.
Proof.
  revert y grid. induction n as [|n IH]; intros y grid; [done|].
  cbn [fill_grid].
  destruct (fill_row _ _ _ _ _) as [row|e0] eqn:Hrow; [apply IH|].
  intros [= <-]. by eapply fill_row_Throw.
Qed.

(** The constructor throws errors, never [null] or [undefined]. *)
Lemma construct_Throw_not_nullish h json e logs :
  construct h json = (Throw e, logs) → nullish e = false.
Proof.
  unfold construct. destruct json as [d|]; [|by intros [= <- _]].
  destruct (new_Level d h) as [L0|e0] eqn:Hnew; [done|].
  assert (He0 : nullish e0 = false).
  { unfold new_Level in Hnew.
    destruct (h_goals h !! d_goal d) as [g|]; [|by injection Hnew as <-].
    destruct (_ || _); [by injection Hnew as <-|].
    destruct (fill_grid _ _ _ _ _ _) as [grid|e1] eqn:Hgrid; [done|].
    injection Hnew as <-. by rewrite (fill_grid_Throw _ _ _ _ _ _ _ Hgrid). }
  destruct e0; by intros [= <- _].
Qed.

Lemma load_steps_nullish fetched h e logs :
  load_steps validate errorsText fetched h = (Throw e, logs) →
  nullish e = true →
  logs = []
  ∧ (fetched = Throw e
     ∨ ∃ response, fetched = Return response ∧ ok response = true
                   ∧ json response = Throw e).
Proof.
  unfold load_steps. intros Hs Hn.
  destruct fetched as [response|e1]; [|injection Hs as <- <-; by eauto].
  destruct (ok response) eqn:Hok; cbn [negb] in Hs;
    [|injection Hs as <- <-; discriminate Hn].
  destruct (json response) as [js|e1] eqn:Hjs.
  2:{ injection Hs as <- <-. split; [done|]. right. by exists response. }
  destruct (validate h js); cbn [negb] in Hs.
  - apply construct_Throw_not_nullish in Hs. congruence.
  - injection Hs as <- <-. discriminate Hn.
Qed.

(** X25.  A failure of [loadLevel] is logged with the URL by its final
    handler and then thrown again unchanged, unless the promise was
    rejected with [null] or [undefined].  The handler's log entry is the
    only one, except for the two failures that were already logged where
    they were found: a schema violation and a goal out of bounds are logged
    twice.  A rejection of the fetch or of the body with [null] or
    [undefined] makes the handler itself fail: [loadLevel] then rejects
    with a TypeError and nothing is logged. *)
Theorem loadLevel_failure_is_logged_and_rethrown
    (url : string) (fetched : outcome Response) (h : heap)
    (e : error) (logs : list log_entry) :
  loadLevel validate errorsText url fetched h = (Throw e, logs) →
  ((load_steps validate errorsText fetched h).1 = Throw e
   ∧ last logs = Some (LoadFailed url e)
   ∧ (logs = [LoadFailed url e]
      ∨ (∃ errors,
           e = Error_ ("Invalid level JSON: " +:+ errors)
           ∧ logs = [ValidationFailed errors; LoadFailed url e])
      ∨ (∃ x y,
           e = GoalOutOfBounds x y
           ∧ logs = [GoalOutOfBoundsLogged x y; LoadFailed url e])))
  ∨ (e = TypeError ∧ logs = []
     ∧ ∃ v, (v = VNull ∨ v = VUndefined)
            ∧ (fetched = Throw (Thrown v)
               ∨ ∃ response, fetched = Return response ∧ ok response = true
                             ∧ json response = Throw (Thrown v))).
Proof.
  unfold loadLevel.
  destruct (load_steps validate errorsText fetched h) as [[L|e0] lg] eqn:Hs;
    [done|].
  destruct (nullish e0) eqn:Hn.
  - intros [= <- <-]. right.
    destruct (load_steps_nullish fetched h e0 lg Hs Hn) as [-> Hwhere].
    split; [done|]. split; [done|].
    destruct e0 as [| | | |v]; try discriminate Hn.
    exists v. split; [|done].
    destruct v; try discriminate Hn; auto.
  - intros [= <- <-]. left. split; [done|]. split; [by rewrite last_snoc|].
    unfold load_steps in Hs.
    destruct fetched as [response|e1]; [|injection Hs as <- <-; by left].
    destruct (ok response); cbn [negb] in Hs; [|injection Hs as <- <-; by left].
    destruct (json response) as [js|e1]; [|injection Hs as <- <-; by left].
    destruct (validate h js); cbn [negb] in Hs.
    + apply construct_Throw in Hs as [[-> _]|(x & y & -> & ->)]; [by left|].
      right. right. by exists x, y.
    + injection Hs as <- <-. right. left. by eexists.
Qed.

End LoaderFacts.

Section LoaderWitnesses.
Import Loader.

Lemma loadLevel_succeeds_iff_all_stages_do_witness :
  let response := {| ok := true; status := 200;
                     json := Return (RawDocument valid_document) |} in
  loadLevel sample_validate sample_errorsText "http://example.com/level.json"
    (Return response) valid_heap = (Return valid_level, [])
  ↔ ([] : list log_entry) = []
    ∧ ∃ r d,
        Return response = Return r ∧ ok r = true
        ∧ json r = Return (RawDocument d)
        ∧ sample_validate valid_heap (RawDocument d) = true
        ∧ new_Level d valid_heap = Return valid_level.
Proof.
  intros response.
  apply (loadLevel_succeeds_iff_all_stages_do sample_validate
           sample_errorsText "http://example.com/level.json"
           (Return response) valid_heap valid_level []).
Defined.

Lemma loadLevel_failure_is_logged_and_rethrown_witness :
  let e := Error_ "Network response was not ok (status 404)" in
  let fetched :=
    Return {| ok := false; status := 404; json := Return RawOther |} in
  let logs := [LoadFailed "bad/url" e] in
  ((load_steps sample_validate sample_errorsText fetched valid_heap).1
   = Throw e
   ∧ last logs = Some (LoadFailed "bad/url" e)
   ∧ (logs = [LoadFailed "bad/url" e]
      ∨ (∃ errors,
           e = Error_ ("Invalid level JSON: " +:+ errors)
           ∧ logs = [ValidationFailed errors; LoadFailed "bad/url" e])
      ∨ (∃ x y,
           e = GoalOutOfBounds x y
           ∧ logs = [GoalOutOfBoundsLogged x y; LoadFailed "bad/url" e])))
  ∨ (e = TypeError ∧ logs = []
     ∧ ∃ v, (v = VNull ∨ v = VUndefined)
            ∧ (fetched = Throw (Thrown v)
               ∨ ∃ response, fetched = Return response ∧ ok response = true
                             ∧ json response = Throw (Thrown v))).
Proof.
  intros e fetched logs.
  apply (loadLevel_failure_is_logged_and_rethrown sample_validate
           sample_errorsText "bad/url" fetched valid_heap e logs).
  vm_compute. reflexivity.
Defined.

End LoaderWitnesses.
